(** * Multinomial distribution (src/cpp/statistics/multinomial.h)

    A shallow embedding of the [utexas::Multinomial] class and the proofs
    of its specification.

    Numbers.  The class stores and computes with C++ [double]s held in
    numpy arrays.  They are modelled by the type [IEEE.double]: the three
    special values of IEEE-754 (NaN and the two infinities) with their
    arithmetic tables, and finite values carried by a real number.  An
    operation on finite values delivers its exact real result unless that
    result reaches the overflow threshold of binary64, in which case it
    delivers an infinity.  Rounding of in-range results and the sign of
    zero are outside the model.

    Control.  Methods are computations in a small state-and-outcome monad
    over the [world] (the instance and the global random generator of
    numpy): a call returns a value, signals an error, or has no defined
    behaviour (out-of-range conversion or index, missing return). *)

From Stdlib Require Import Reals Lra Lia ZArith List Bool.
From Stdlib Require Import R_Ifp.
Import ListNotations.

Local Open Scope R_scope.

(** ** Idealised binary64 *)

Module IEEE.

Inductive double : Type :=
| NaN
| PInf
| NInf
| Fin (r : R).

(** Largest finite binary64 value, (2 - 2^-52) * 2^1023. *)
Definition DBL_MAX_Z : Z := Eval cbv in (2 ^ 1024 - 2 ^ 971)%Z.
Definition DBL_MAX : R := IZR DBL_MAX_Z.

(** Round-to-nearest overflow threshold: an exact result of magnitude
    DBL_MAX + ulp/2 = 2^1024 - 2^970 or more is delivered as an infinity. *)
Definition OVF_Z : Z := Eval cbv in (2 ^ 1024 - 2 ^ 970)%Z.
Definition OVF : R := IZR OVF_Z.

(** [fl r]: the double delivered by an operation whose exact result is [r]. *)
Definition fl (r : R) : double :=
  if Rle_dec OVF r then PInf
  else if Rle_dec r (- OVF) then NInf
  else Fin r.

Definition neg (x : double) : double :=
  match x with
  | NaN => NaN
  | PInf => NInf
  | NInf => PInf
  | Fin r => Fin (- r)
  end.

Definition add (x y : double) : double :=
  match x, y with
  | NaN, _ | _, NaN => NaN
  | PInf, NInf | NInf, PInf => NaN
  | PInf, _ | _, PInf => PInf
  | NInf, _ | _, NInf => NInf
  | Fin a, Fin b => fl (a + b)
  end.

Definition sub (x y : double) : double := add x (neg y).

(** Infinity of the sign of [s * r] for a real [r]; NaN when [r] is zero. *)
Definition inf_times (negative : bool) (r : R) : double :=
  match total_order_T r 0 with
  | inleft (left _) => if negative then PInf else NInf
  | inleft (right _) => NaN
  | inright _ => if negative then NInf else PInf
  end.

Definition mul (x y : double) : double :=
  match x, y with
  | NaN, _ | _, NaN => NaN
  | PInf, PInf | NInf, NInf => PInf
  | PInf, NInf | NInf, PInf => NInf
  | PInf, Fin r | Fin r, PInf => inf_times false r
  | NInf, Fin r | Fin r, NInf => inf_times true r
  | Fin a, Fin b => fl (a * b)
  end.

(** Division; a zero divisor is taken as +0. *)
Definition div (x y : double) : double :=
  match x, y with
  | NaN, _ | _, NaN => NaN
  | PInf, Fin b => if Rle_dec 0 b then PInf else NInf
  | NInf, Fin b => if Rle_dec 0 b then NInf else PInf
  | PInf, _ | NInf, _ => NaN
  | Fin _, PInf | Fin _, NInf => Fin 0
  | Fin a, Fin b =>
      match total_order_T b 0 with
      | inleft (right _) => inf_times false a
      | _ => fl (a / b)
      end
  end.

(** Natural logarithm as libm and numpy compute it. *)
Definition log (x : double) : double :=
  match x with
  | NaN => NaN
  | PInf => PInf
  | NInf => NaN
  | Fin r =>
      match total_order_T r 0 with
      | inleft (left _) => NaN
      | inleft (right _) => NInf
      | inright _ => Fin (ln r)
      end
  end.

(** [unsigned long] is 64 bits wide. *)
Definition ULONG_MODULUS : Z := Eval cbv in (2 ^ 64)%Z.

(** Conversion [unsigned long] to [double]. *)
Definition of_ulong (n : Z) : double := Fin (IZR n).

(** Conversion [double] to [unsigned long]: truncation toward zero; the
    behaviour is undefined ([None]) when the truncated value does not fit. *)
Definition to_ulong (x : double) : option Z :=
  match x with
  | Fin r =>
      if Rle_dec 0 r then
        if Rlt_dec r (IZR ULONG_MODULUS) then Some (Int_part r) else None
      else
        if Rlt_dec (-1) r then Some 0%Z else None
  | _ => None
  end.

(** Real value of a finite double (0 for the special values). *)
Definition to_R (x : double) : R :=
  match x with
  | Fin r => r
  | _ => 0
  end.

Definition is_finite (x : double) : Prop := exists r, x = Fin r.

End IEEE.

Import IEEE.

(** ** The numpy operations the constructor calls *)

Module Numpy.

(** [numpy.sum] of a one-dimensional array. *)
Definition sum (a : list double) : double := fold_left add a (Fin 0).

(** [a /= s] with a scalar [s]. *)
Definition divide (a : list double) (s : double) : list double :=
  map (fun x => div x s) a.

(** [numpy.log], elementwise. *)
Definition log (a : list double) : list double := map IEEE.log a.

(** [numpy.nan_to_num] on one element: NaN becomes zero, an infinity the
    finite double of largest magnitude and the same sign. *)
Definition nan_to_num1 (x : double) : double :=
  match x with
  | NaN => Fin 0
  | PInf => Fin DBL_MAX
  | NInf => Fin (- DBL_MAX)
  | Fin r => Fin r
  end.

Definition nan_to_num (a : list double) : list double := map nan_to_num1 a.

End Numpy.

(** ** Outcomes and the method monad *)

(** Error kinds: the four the specification names, and the ValueError that
    numpy raises on a bad argument.  The class itself signals an error in
    one place only, the assertion of [log_likelihood]. *)
Inductive error : Type :=
| InvalidParameterError
| InvalidArgumentError
| DimensionMismatchError
| InternalConsistencyError
| ValueError.

Inductive outcome (A : Type) : Type :=
| Returned (a : A)
| Signalled (e : error)
| Undefined.

Arguments Returned {A} a.
Arguments Signalled {A} e.
Arguments Undefined {A}.

(** [NumpyArrayFY<double, 1>] *)
Definition Sample : Type := list double.
Definition Beta : Type := list double.

Record Multinomial : Type := {
  _beta : Beta;
  _log_beta : Beta
}.

Section Methods.

(** Log of the Gamma function on the reals, away from its poles. *)
Variable lgamma : R -> R.

(** State of the process-wide generator behind [scipy.random]. *)
Variable RandomState : Type.

(** [scipy.random.multinomial(N, pvals)]: the drawn counts (or the error
    the library raises) and the generator state after the draw. *)
Variable scipy_random_multinomial :
  Z -> list double -> RandomState -> outcome (list Z) * RandomState.

Record world : Type := {
  self : Multinomial;
  random_state : RandomState
}.

Definition M (A : Type) : Type := world -> outcome A * world.

Definition ret {A : Type} (a : A) : M A := fun w => (Returned a, w).

Definition bind {A B : Type} (c : M A) (k : A -> M B) : M B :=
  fun w =>
    match c w with
    | (Returned a, w') => k a w'
    | (Signalled e, w') => (Signalled e, w')
    | (Undefined, w') => (Undefined, w')
    end.

Notation "x <- c ;; k" := (bind c (fun x => k))
  (at level 100, c at next level, right associativity).
Notation "c ;;; k" := (bind c (fun _ => k))
  (at level 100, right associativity).

(** Read a member of [*this]. *)
Definition member {A : Type} (f : Multinomial -> A) : M A :=
  fun w => (Returned (f (self w)), w).

(** [a(d)]: element access; an index outside the array is undefined. *)
Definition at_index (a : list double) (d : nat) : M double :=
  fun w =>
    match nth_error a d with
    | Some x => (Returned x, w)
    | None => (Undefined, w)
    end.

(** Store a converted value; a conversion without a value is undefined. *)
Definition converted {A : Type} (o : option A) : M A :=
  fun w =>
    match o with
    | Some a => (Returned a, w)
    | None => (Undefined, w)
    end.

(** Modelled from the spec: the macro UTEXAS_ASSERT is not defined in the
    source file.  A failed assertion signals the caller and ends the call;
    the only assertion of the class checks the sample's dimension, for which
    the specification names the error DimensionMismatchError. *)
Definition UTEXAS_ASSERT (condition : bool) : M unit :=
  fun w =>
    if condition then (Returned tt, w)
    else (Signalled DimensionMismatchError, w).

(** Modelled from the spec: [ln_gamma] is not defined in the source file;
    it is the log of the Gamma function.  Special values follow lgamma of
    C99: a pole (zero or a negative integer) and both infinities give
    +infinity. *)
Definition ln_gamma (x : double) : double :=
  match x with
  | NaN => NaN
  | PInf => PInf
  | NInf => PInf
  | Fin r =>
      if Rle_dec r 0 then
        if Req_dec_T r (IZR (Int_part r)) then PInf else fl (lgamma r)
      else fl (lgamma r)
  end.

(** Constructor.
<<
    : _beta(beta)
    {
        _beta     /= numpy.sum(beta)
        _log_beta  = numpy.nan_to_num(numpy.log(self.__beta))
    }
>>
    No statement of the body can signal: numpy divides by zero and takes
    logs of zero without raising. *)
Definition Multinomial_init (beta : Beta) : outcome Multinomial :=
  let b := beta in
  let b := Numpy.divide b (Numpy.sum beta) in
  let lb := Numpy.nan_to_num (Numpy.log b) in
  Returned {| _beta := b; _log_beta := lb |}.

(** Run the external sampler on the global generator. *)
Definition draw_multinomial (N : Z) (pvals : list double) : M (list Z) :=
  fun w =>
    let (r, g) := scipy_random_multinomial N pvals (random_state w) in
    (r, {| self := self w; random_state := g |}).

(** [Sample variate(size_t N) const] *)
Definition variate (N : Z) : M Sample :=
  pvals <- member _beta ;;
  counts <- draw_multinomial N pvals ;;
  ret (map of_ulong counts).

(** [Sample variate() const] *)
Definition variate1 : M Sample := variate 1.

(** [size_t indicator() const]: the body holds the comment FIXME and no
    statement, so control reaches the end of a value-returning function. *)
Definition indicator : M Z := fun w => (Undefined, w).

(** The loop [for(size_t d = D; d--;)] entered with [d] iterations left:
    it visits the indices [d-1], ..., [0] in that order. *)
Fixpoint log_likelihood_loop (sample : Sample) (d : nat) (n : Z) (l : double)
  : M (Z * double) :=
  match d with
  | O => ret (n, l)
  | S d' =>
      s <- at_index sample d' ;;
      (* n += sample(d): the sum is formed in double and converted back *)
      n' <- converted (to_ulong (add (of_ulong n) s)) ;;
      (* l -= ln_gamma(sample(d) + 1) *)
      let l1 := sub l (ln_gamma (add s (Fin 1))) in
      (* l += _log_beta(d) * sample(d) *)
      log_beta <- member _log_beta ;;
      lb <- at_index log_beta d' ;;
      let l2 := add l1 (mul lb s) in
      log_likelihood_loop sample d' n' l2
  end.

(** [double log_likelihood(const Sample& sample)] *)
Definition log_likelihood (sample : Sample) : M double :=
  beta <- member _beta ;;
  let D := length beta in
  UTEXAS_ASSERT (Nat.eqb (length sample) D) ;;;
  nl <- log_likelihood_loop sample D 0%Z (Fin 0) ;;
  let (n, l) := (nl : Z * double) in
  ret (add l (ln_gamma (of_ulong ((n + 1) mod ULONG_MODULUS)))).

(** [const Beta& get_beta() const] *)
Definition get_beta : M Beta := member _beta.

(** [const Beta& get_log_beta() const] *)
Definition get_log_beta : M Beta := member _log_beta.

End Methods.

Arguments self {RandomState} w.
Arguments random_state {RandomState} w.
Arguments Build_world {RandomState} self random_state.
Arguments ret {RandomState A} a w.
Arguments bind {RandomState A B} c k w.
Arguments member {RandomState A} f w.
Arguments at_index {RandomState} a d w.
Arguments converted {RandomState A} o w.
Arguments UTEXAS_ASSERT {RandomState} condition w.
Arguments variate {RandomState} scipy_random_multinomial N w.
Arguments variate1 {RandomState} scipy_random_multinomial w.
Arguments indicator {RandomState} w.
Arguments draw_multinomial {RandomState} scipy_random_multinomial N pvals w.
Arguments log_likelihood_loop lgamma {RandomState} sample d n l w.
Arguments log_likelihood lgamma {RandomState} sample w.
Arguments get_beta {RandomState} w.
Arguments get_log_beta {RandomState} w.

(** ** The quantities of the specification *)

Definition Rsum (l : list R) : R := fold_right Rplus 0 l.

Definition Zsum (l : list Z) : Z := fold_right Z.add 0%Z l.

(** Sum over d of sample[d] * log_beta[d]. *)
Definition weighted_sum (sample log_beta : list R) : R :=
  Rsum (map (fun p => fst p * snd p) (combine sample log_beta)).

(** The right-hand side of the specification's formula for a trial count
    [n]: lgamma(n + 1) - sum_d lgamma(sample[d] + 1)
                       + sum_d sample[d] * log_beta[d]. *)
Definition log_pmf_at (lgamma : R -> R) (n : R) (log_beta sample : list R) : R :=
  lgamma (n + 1) - Rsum (map (fun s => lgamma (s + 1)) sample)
  + weighted_sum sample log_beta.

(** The specification's log P(sample | beta), with n the sum of the sample. *)
Definition log_pmf (lgamma : R -> R) (log_beta sample : list R) : R :=
  log_pmf_at lgamma (Rsum sample) log_beta sample.

(** Total magnitude of the terms [log_likelihood] adds up for a trial
    count [n]; while it stays below the overflow threshold every
    intermediate value of the evaluation is finite. *)
Definition magnitude (lgamma : R -> R) (n : R) (log_beta sample : list R) : R :=
  Rsum (map (fun p => Rabs (lgamma (fst p + 1)) + Rabs (snd p * fst p))
            (combine sample log_beta))
  + Rabs (lgamma (n + 1)).

(** The count vector of length [D] with a single 1, at index [i]. *)
Fixpoint one_hot (D i : nat) : list Z :=
  match D with
  | O => []
  | S D' =>
      match i with
      | O => 1%Z :: repeat 0%Z D'
      | S i' => 0%Z :: one_hot D' i'
      end
  end.

(** A probability vector [scipy.random.multinomial] accepts. *)
Definition valid_pvals (pvals : list double) : Prop :=
  exists ps, pvals = map Fin ps /\ ps <> [] /\
             Forall (fun p => 0 <= p <= 1) ps /\ Rsum ps = 1.

(** What the library documents of [scipy.random.multinomial(N, pvals)]: for
    a non-negative trial count and a probability vector it returns one
    count per category, each non-negative, summing to [N]. *)
Definition multinomial_contract {RandomState : Type}
  (sampler : Z -> list double -> RandomState -> outcome (list Z) * RandomState)
  : Prop :=
  forall N pvals g, (0 <= N)%Z -> valid_pvals pvals ->
    exists counts g',
      sampler N pvals g = (Returned counts, g') /\
      length counts = length pvals /\
      Forall (fun k => (0 <= k)%Z) counts /\
      Zsum counts = N.

(** What is used of log-Gamma at the integers k >= 1, where it is the log
    of the factorial of k - 1: it is non-negative, and cannot overflow for
    an argument that fits an [unsigned long]. *)
Definition lgamma_on_counts (lgamma : R -> R) : Prop :=
  forall k, (1 <= k)%Z ->
    0 <= lgamma (IZR k) /\ ((k <= ULONG_MODULUS)%Z -> lgamma (IZR k) < OVF).

(** A double that is zero, negative or minus infinity. *)
Definition nonpositive (x : double) : Prop :=
  x = NInf \/ exists r, x = Fin r /\ r <= 0.

(** The log parameter the constructor stores for a probability [p]:
    [nan_to_num (log p)]. *)
Definition stored_log (p : R) : R :=
  to_R (Numpy.nan_to_num1 (IEEE.log (Fin p))).

(** A computation that leaves the whole world as it found it. *)
Definition pure_call {RandomState A : Type} (c : M RandomState A) : Prop :=
  forall w, snd (c w) = w.

(** A computation that leaves the instance as it found it (it may advance
    the random generator). *)
Definition keeps_self {RandomState A : Type} (c : M RandomState A) : Prop :=
  forall w, self (snd (c w)) = self w.

(** The log parameter as the specification describes it: the natural log,
    with zero mapped to zero. *)
Definition spec_log_beta (p : R) : R :=
  if Req_dec_T p 0 then 0 else ln p.

(** *** Instances the model is run on *)

(** log-Gamma at the positive integers, lgamma k = ln ((k - 1)!), extended
    to the reals through the integer part. *)
Definition lgamma_fact (x : R) : R :=
  ln (INR (fact (Z.to_nat (Int_part x - 1)))).

(** The distribution the constructor builds from the raw vector [1, 1]. *)
Definition half_half : Multinomial :=
  {| _beta := [Fin (1 / 2); Fin (1 / 2)];
     _log_beta := [Fin (ln (1 / 2)); Fin (ln (1 / 2))] |}.

(** The distribution the constructor builds from the raw vector [1, 0]. *)
Definition one_zero : Multinomial :=
  {| _beta := [Fin 1; Fin 0];
     _log_beta := [Fin 0; Fin (- DBL_MAX)] |}.

(** A world whose random generator carries no state. *)
Definition world_of (m : Multinomial) : world unit :=
  {| self := m; random_state := tt |}.

(** A sampler that puts every trial into the first category and leaves
    its generator state as it is. *)
Definition first_category_sampler (N : Z) (pvals : list double) (g : unit)
  : outcome (list Z) * unit :=
  (Returned match pvals with
            | [] => []
            | _ :: rest => N :: repeat 0%Z (length rest)
            end, g).

(** ** Facts about the arithmetic *)

Lemma OVF_pos : 0 < OVF.
Proof. unfold OVF, OVF_Z; apply IZR_lt; reflexivity. Qed.

Lemma DBL_MAX_bounds : 0 < DBL_MAX < OVF.
Proof.
  unfold DBL_MAX, OVF, DBL_MAX_Z, OVF_Z; split; apply IZR_lt; reflexivity.
Qed.

Lemma twice_DBL_MAX_overflows : OVF <= 2 * DBL_MAX.
Proof. unfold DBL_MAX, OVF, DBL_MAX_Z, OVF_Z; lra. Qed.

Lemma ULONG_below_OVF : IZR ULONG_MODULUS * IZR ULONG_MODULUS + 1 < OVF.
Proof. unfold ULONG_MODULUS, OVF, OVF_Z; lra. Qed.

Lemma thousand_below_OVF : 1000 < OVF.
Proof. unfold OVF, OVF_Z; lra. Qed.

Lemma ULONG_MODULUS_pos : 1 < IZR ULONG_MODULUS.
Proof. unfold ULONG_MODULUS; lra. Qed.

Lemma fl_exact (r : R) : - OVF < r < OVF -> fl r = Fin r.
Proof.
  intros [Hlo Hhi]; unfold fl.
  destruct (Rle_dec OVF r); [lra|].
  destruct (Rle_dec r (- OVF)); [lra|reflexivity].
Qed.

Lemma fl_abs (r : R) : Rabs r < OVF -> fl r = Fin r.
Proof.
  intros H; apply fl_exact.
  unfold Rabs in H; destruct (Rcase_abs r); lra.
Qed.

Lemma add_Fin (a b : R) : Rabs (a + b) < OVF -> add (Fin a) (Fin b) = Fin (a + b).
Proof. intros H; simpl; now apply fl_abs. Qed.

Lemma sub_Fin (a b : R) : Rabs (a - b) < OVF -> sub (Fin a) (Fin b) = Fin (a - b).
Proof. intros H; unfold sub; simpl; now apply fl_abs. Qed.

Lemma mul_Fin (a b : R) : Rabs (a * b) < OVF -> mul (Fin a) (Fin b) = Fin (a * b).
Proof. intros H; simpl; now apply fl_abs. Qed.

Lemma div_Fin (a b : R) :
  b <> 0 -> Rabs (a / b) < OVF -> div (Fin a) (Fin b) = Fin (a / b).
Proof.
  intros Hb H; simpl.
  destruct (total_order_T b 0) as [[Hlt|Heq]|Hgt]; try contradiction;
    now apply fl_abs.
Qed.

Lemma div_zero_zero : div (Fin 0) (Fin 0) = NaN.
Proof.
  simpl. destruct (total_order_T 0 0) as [[Hlt|Heq]|Hgt]; try lra.
  unfold inf_times.
  destruct (total_order_T 0 0) as [[Hlt|Heq']|Hgt]; try lra; reflexivity.
Qed.

Lemma log_positive (r : R) : 0 < r -> IEEE.log (Fin r) = Fin (ln r).
Proof.
  intros H; simpl.
  destruct (total_order_T r 0) as [[Hlt|Heq]|Hgt]; try lra; reflexivity.
Qed.

Lemma log_zero : IEEE.log (Fin 0) = NInf.
Proof.
  simpl. destruct (total_order_T 0 0) as [[Hlt|Heq]|Hgt]; try lra; reflexivity.
Qed.

Lemma Int_part_shift (n : Z) (r : R) :
  Int_part (IZR n + r) = (n + Int_part r)%Z.
Proof.
  symmetry; apply Int_part_spec.
  destruct (base_Int_part r) as [Hle Hgt].
  rewrite plus_IZR; lra.
Qed.

Lemma Int_part_IZR (k : Z) : Int_part (IZR k) = k.
Proof. symmetry; apply Int_part_spec; lra. Qed.

Lemma Int_part_nonneg (r : R) : 0 <= r -> (0 <= Int_part r)%Z.
Proof.
  intros H. destruct (base_Int_part r) as [_ Hgt].
  assert (Hlt : -1 < IZR (Int_part r)) by lra.
  apply lt_IZR in Hlt. lia.
Qed.

(** [n += x] for a non-negative [x]: the integer part of [x] is added. *)
Lemma to_ulong_add (n : Z) (r : R) :
  (0 <= n)%Z -> 0 <= r -> IZR n + r < IZR ULONG_MODULUS ->
  to_ulong (add (of_ulong n) (Fin r)) = Some (n + Int_part r)%Z.
Proof.
  intros Hn Hr Hlt. unfold of_ulong.
  assert (H0 : 0 <= IZR n) by now apply IZR_le.
  pose proof ULONG_below_OVF as HU. pose proof ULONG_MODULUS_pos as H1.
  rewrite add_Fin.
  - simpl. destruct (Rle_dec 0 (IZR n + r)); [|lra].
    destruct (Rlt_dec (IZR n + r) (IZR ULONG_MODULUS)); [|lra].
    now rewrite Int_part_shift.
  - rewrite Rabs_pos_eq by lra. nra.
Qed.

Section LnGamma.

Variable lgamma : R -> R.

Lemma ln_gamma_positive (r : R) :
  0 < r -> ln_gamma lgamma (Fin r) = fl (lgamma r).
Proof. intros H; simpl. destruct (Rle_dec r 0); [lra|reflexivity]. Qed.

Lemma ln_gamma_Fin (r : R) :
  0 < r -> Rabs (lgamma r) < OVF -> ln_gamma lgamma (Fin r) = Fin (lgamma r).
Proof. intros H Hb; rewrite ln_gamma_positive by assumption; now apply fl_abs. Qed.

End LnGamma.

(** ** Sums *)

Lemma Rsum_app (a b : list R) : Rsum (a ++ b) = Rsum a + Rsum b.
Proof. induction a as [|x a IH]; simpl; [lra|rewrite IH; lra]. Qed.

Lemma Zsum_app (a b : list Z) : Zsum (a ++ b) = (Zsum a + Zsum b)%Z.
Proof. induction a as [|x a IH]; simpl; [reflexivity|rewrite IH; lia]. Qed.

Lemma Rsum_nonneg (l : list R) : Forall (fun r => 0 <= r) l -> 0 <= Rsum l.
Proof. induction 1 as [|x l Hx _ IH]; simpl; lra. Qed.

Lemma Zsum_nonneg (l : list Z) : Forall (fun k => (0 <= k)%Z) l -> (0 <= Zsum l)%Z.
Proof. induction 1 as [|x l Hx _ IH]; simpl; lia. Qed.

Lemma Rsum_scale (c : R) (l : list R) :
  Rsum (map (fun r => r / c) l) = Rsum l / c.
Proof.
  induction l as [|x l IH]; simpl.
  - unfold Rdiv; lra.
  - rewrite IH; unfold Rdiv; lra.
Qed.

Lemma Rsum_IZR (ks : list Z) : Rsum (map IZR ks) = IZR (Zsum ks).
Proof.
  induction ks as [|k ks IH]; simpl; [reflexivity|].
  rewrite IH, plus_IZR; reflexivity.
Qed.

Lemma firstn_snoc {A : Type} (l : list A) (d : nat) (x : A) :
  nth_error l d = Some x -> firstn (S d) l = firstn d l ++ [x].
Proof.
  revert d; induction l as [|y l IH]; intros [|d] H; simpl in *; try discriminate.
  - now inversion H.
  - f_equal; now apply IH.
Qed.

(** ** The constructor *)

Lemma sum_from (rs : list R) (a : R) :
  0 <= a -> Forall (fun r => 0 <= r) rs -> a + Rsum rs < OVF ->
  fold_left add (map Fin rs) (Fin a) = Fin (a + Rsum rs).
Proof.
  intros Ha Hrs; revert a Ha.
  induction Hrs as [|r rs Hr Hrs IH]; intros a Ha Hlt; simpl in *.
  - now rewrite Rplus_0_r.
  - pose proof (Rsum_nonneg rs Hrs) as Hs.
    rewrite fl_exact by (pose proof OVF_pos; lra).
    rewrite IH by lra. f_equal; lra.
Qed.

Lemma numpy_sum_nonneg (rs : list R) :
  Forall (fun r => 0 <= r) rs -> Rsum rs < OVF ->
  Numpy.sum (map Fin rs) = Fin (Rsum rs).
Proof.
  intros Hrs Hlt; unfold Numpy.sum.
  rewrite sum_from by (assumption || lra). f_equal; lra.
Qed.

Lemma entry_le_Rsum (rs : list R) (r : R) :
  Forall (fun r => 0 <= r) rs -> In r rs -> 0 <= r <= Rsum rs.
Proof.
  induction 1 as [|x rs Hx Hrs IH]; intros Hin; simpl in *; [contradiction|].
  pose proof (Rsum_nonneg rs Hrs).
  destruct Hin as [-> | Hin]; [lra|]. specialize (IH Hin); lra.
Qed.

Lemma entry_normalised (rs : list R) (r : R) :
  Forall (fun r => 0 <= r) rs -> 0 < Rsum rs -> In r rs ->
  0 <= r / Rsum rs <= 1.
Proof.
  intros Hrs Hpos Hin. destruct (entry_le_Rsum rs r Hrs Hin) as [H0 H1].
  split.
  - apply Rmult_le_pos; [assumption|]. left; now apply Rinv_0_lt_compat.
  - apply Rmult_le_reg_r with (Rsum rs); [assumption|].
    unfold Rdiv; rewrite Rmult_assoc, Rinv_l by lra. lra.
Qed.

Lemma nan_to_num1_finite (x : double) :
  Numpy.nan_to_num1 x = Fin (to_R (Numpy.nan_to_num1 x)).
Proof. destruct x; reflexivity. Qed.

Lemma stored_log_zero : stored_log 0 = - DBL_MAX.
Proof. unfold stored_log; now rewrite log_zero. Qed.

Lemma stored_log_positive (p : R) : 0 < p -> stored_log p = ln p.
Proof. intros H; unfold stored_log; now rewrite log_positive. Qed.

Lemma stored_log_nonpositive (p : R) : 0 <= p <= 1 -> stored_log p <= 0.
Proof.
  intros [H0 H1]. destruct H0 as [Hpos | <-].
  - rewrite stored_log_positive by assumption.
    destruct H1 as [Hlt | ->]; [|rewrite ln_1; lra].
    rewrite <- ln_1. left; now apply ln_increasing.
  - rewrite stored_log_zero. pose proof DBL_MAX_bounds; lra.
Qed.

(** The instance built from non-negative finite parameters with a positive
    sum that does not overflow. *)
Lemma init_normalised (rs : list R) :
  Forall (fun r => 0 <= r) rs -> 0 < Rsum rs -> Rsum rs < OVF ->
  Multinomial_init (map Fin rs) =
  Returned {| _beta := map (fun r => Fin (r / Rsum rs)) rs;
              _log_beta := map (fun r => Fin (stored_log (r / Rsum rs))) rs |}.
Proof.
  intros Hrs Hpos Hlt. unfold Multinomial_init.
  rewrite numpy_sum_nonneg by assumption.
  assert (Hdiv : Numpy.divide (map Fin rs) (Fin (Rsum rs)) =
                 map (fun r => Fin (r / Rsum rs)) rs).
  { unfold Numpy.divide. rewrite map_map. apply map_ext_in. intros r Hin.
    apply div_Fin; [lra|].
    destruct (entry_normalised rs r Hrs Hpos Hin) as [H0 H1].
    rewrite Rabs_pos_eq by assumption. pose proof ULONG_below_OVF.
    pose proof ULONG_MODULUS_pos. nra. }
  rewrite Hdiv. do 2 f_equal.
  unfold Numpy.nan_to_num, Numpy.log. rewrite !map_map.
  apply map_ext. intros r. unfold stored_log. apply nan_to_num1_finite.
Qed.

(** Whatever the raw vector, the constructor returns, the two vectors have
    the length of the raw one and every stored log is finite. *)
Lemma init_shape (raw : Beta) :
  exists m lb,
    Multinomial_init raw = Returned m /\
    length (_beta m) = length raw /\
    _log_beta m = map Fin lb /\ length lb = length raw.
Proof.
  eexists. exists (map (fun x => to_R (Numpy.nan_to_num1 (IEEE.log x)))
                       (Numpy.divide raw (Numpy.sum raw))).
  split; [reflexivity|]. simpl. unfold Numpy.divide, Numpy.nan_to_num, Numpy.log.
  rewrite !length_map, !map_map. repeat split.
  apply map_ext. intros x. apply nan_to_num1_finite.
Qed.

(** ** The loop of [log_likelihood] *)

Ltac split_Rabs :=
  unfold Rabs in *;
  repeat match goal with
         | |- context [Rcase_abs ?x] => destruct (Rcase_abs x)
         | H : context [Rcase_abs ?x] |- _ => destruct (Rcase_abs x)
         end.

Lemma Rsum_abs_nonneg {A : Type} (f g : A -> R) (l : list A) :
  0 <= Rsum (map (fun p => Rabs (f p) + Rabs (g p)) l).
Proof.
  apply Rsum_nonneg, Forall_forall. intros x Hx. apply in_map_iff in Hx.
  destruct Hx as [p [<- _]].
  pose proof (Rabs_pos (f p)); pose proof (Rabs_pos (g p)); lra.
Qed.

Section Loop.

Variable lgamma : R -> R.
Variable RandomState : Type.

(** A row pairs sample[d] with log_beta[d]. *)
Variable rows : list (R * R).

Let sample : Sample := map (fun p => Fin (fst p)) rows.
Let log_beta : Beta := map (fun p => Fin (snd p)) rows.

Let term (p : R * R) : R := snd p * fst p - lgamma (fst p + 1).
Let size (p : R * R) : R := Rabs (lgamma (fst p + 1)) + Rabs (snd p * fst p).
Let whole (p : R * R) : Z := Int_part (fst p).

(** With non-negative entries, no conversion out of range and no overflow,
    the iterations left add the integer parts of the entries to [n] and
    the exact terms to [l], and leave the world as it is. *)
Lemma loop_exact (d : nat) :
  forall (n : Z) (lr : R) (w : world RandomState),
    _log_beta (self w) = log_beta ->
    (d <= length rows)%nat ->
    Forall (fun p => 0 <= fst p) (firstn d rows) ->
    (0 <= n)%Z ->
    (n + Zsum (map whole (firstn d rows)) + 1 < ULONG_MODULUS)%Z ->
    Rabs lr + Rsum (map size (firstn d rows)) < OVF ->
    log_likelihood_loop lgamma sample d n (Fin lr) w =
    (Returned ((n + Zsum (map whole (firstn d rows)))%Z,
               Fin (lr + Rsum (map term (firstn d rows)))), w).
Proof.
  induction d as [|d IH]; intros n lr w Hself Hlen Hnn Hn Hfit Hmag.
  - simpl. unfold ret. now rewrite Z.add_0_r, Rplus_0_r.
  - destruct (nth_error rows d) as [[s b]|] eqn:Hrow;
      [|apply nth_error_None in Hrow; lia].
    rewrite (firstn_snoc _ _ _ Hrow) in *.
    rewrite !map_app, ?Zsum_app, ?Rsum_app in *.
    apply Forall_app in Hnn. destruct Hnn as [Hnn Hs].
    inversion Hs as [|? ? Hs0 _]; subst. simpl in Hs0.
    unfold whole, size, term in *. simpl in Hfit, Hmag.
    cbn [log_likelihood_loop fst snd].
    pose proof (Zsum_nonneg (map (fun p => Int_part (fst p)) (firstn d rows))) as Hz.
    assert (Hz' : (0 <= Zsum (map (fun p => Int_part (fst p)) (firstn d rows)))%Z).
    { apply Hz, Forall_forall. intros k Hk. apply in_map_iff in Hk.
      destruct Hk as [p [<- Hp]]. apply Int_part_nonneg.
      rewrite Forall_forall in Hnn. now apply Hnn. }
    clear Hz.
    pose proof (Rsum_abs_nonneg (fun p => lgamma (fst p + 1))
                  (fun p => snd p * fst p) (firstn d rows)) as Hsz.
    pose proof (Int_part_nonneg s Hs0) as Hw.
    destruct (base_Int_part s) as [Hfl Hfr].
    assert (Hs1 : IZR n + s < IZR ULONG_MODULUS).
    { assert (Hi : (n + Int_part s + 1 <= ULONG_MODULUS)%Z) by lia.
      apply IZR_le in Hi. rewrite !plus_IZR in Hi. lra. }
    assert (Hn0 : 0 <= IZR n) by now apply IZR_le.
    pose proof ULONG_below_OVF as HU. pose proof ULONG_MODULUS_pos as HU1.
    cbv beta in Hsz.
    unfold bind at 1. unfold at_index at 1. unfold sample.
    rewrite nth_error_map, Hrow. cbn [option_map fst snd].
    unfold bind at 1.
    rewrite to_ulong_add by assumption. unfold converted at 1. cbv beta iota.
    unfold bind at 1, member at 1. rewrite Hself.
    unfold bind at 1, at_index at 1. unfold log_beta.
    rewrite nth_error_map, Hrow. cbn [option_map fst snd].
    rewrite (add_Fin s 1) by (split_Rabs; nra).
    rewrite ln_gamma_Fin by (try lra; split_Rabs; lra).
    rewrite sub_Fin by (split_Rabs; lra).
    rewrite mul_Fin by (split_Rabs; lra).
    rewrite add_Fin by (split_Rabs; lra).
    fold sample.
    rewrite IH; try assumption; try lia.
    + simpl. do 3 f_equal; [lia|f_equal; lra].
    + split_Rabs; lra.
Qed.

End Loop.

(** ** [log_likelihood] as a whole *)

Lemma map_fst_combine {A B C : Type} (f : A -> C) (s : list A) (lb : list B) :
  length s = length lb -> map (fun p => f (fst p)) (combine s lb) = map f s.
Proof.
  revert lb; induction s as [|x s IH]; intros [|b lb] H; simpl in *;
    try discriminate; [reflexivity|].
  f_equal; apply IH; lia.
Qed.

Lemma map_snd_combine {A B C : Type} (f : B -> C) (s : list A) (lb : list B) :
  length s = length lb -> map (fun p => f (snd p)) (combine s lb) = map f lb.
Proof.
  revert lb; induction s as [|x s IH]; intros [|b lb] H; simpl in *;
    try discriminate; [reflexivity|].
  f_equal; apply IH; lia.
Qed.

Lemma terms_sum (lgamma : R -> R) (s lb : list R) :
  length s = length lb ->
  Rsum (map (fun p => snd p * fst p - lgamma (fst p + 1)) (combine s lb)) =
  weighted_sum s lb - Rsum (map (fun x => lgamma (x + 1)) s).
Proof.
  unfold weighted_sum.
  revert lb; induction s as [|x s IH]; intros [|b lb] H; simpl in *;
    try discriminate; [lra|].
  rewrite IH by lia. lra.
Qed.

Section Whole.

Variable lgamma : R -> R.
Variable RandomState : Type.

(** For a sample of non-negative finite entries, of the right length and
    within range, [log_likelihood] returns the formula evaluated at the sum
    of the integer parts of the entries, and leaves the world as it is. *)
Lemma log_likelihood_exact (w : world RandomState) (lb s : list R) :
  _log_beta (self w) = map Fin lb ->
  length (_beta (self w)) = length lb ->
  length s = length lb ->
  Forall (fun x => 0 <= x) s ->
  (Zsum (map Int_part s) + 1 < ULONG_MODULUS)%Z ->
  magnitude lgamma (IZR (Zsum (map Int_part s))) lb s < OVF ->
  log_likelihood lgamma (map Fin s) w =
  (Returned (Fin (log_pmf_at lgamma (IZR (Zsum (map Int_part s))) lb s)), w).
Proof.
  intros Hself HD Hlen Hnn Hfit Hmag.
  set (rows := combine s lb).
  assert (Hrows : length rows = length lb).
  { unfold rows; rewrite length_combine; lia. }
  assert (Hsample : map Fin s = map (fun p => Fin (fst p)) rows).
  { unfold rows; now rewrite map_fst_combine. }
  assert (Hlogs : map Fin lb = map (fun p => Fin (snd p)) rows).
  { unfold rows; now rewrite map_snd_combine. }
  assert (Hwhole : map (fun p => Int_part (fst p)) rows = map Int_part s).
  { unfold rows; now rewrite map_fst_combine. }
  assert (Hpos : Forall (fun p => 0 <= fst p) rows).
  { apply Forall_forall. intros [x b] Hin. unfold rows in Hin.
    apply in_combine_l in Hin. rewrite Forall_forall in Hnn. now apply Hnn. }
  unfold magnitude in Hmag. fold rows in Hmag.
  pose proof (Rsum_abs_nonneg (fun p => lgamma (fst p + 1))
                (fun p => snd p * fst p) rows) as Hsz. cbv beta in Hsz.
  pose proof (Rabs_pos (lgamma (IZR (Zsum (map Int_part s)) + 1))) as Hg.
  unfold log_likelihood.
  unfold bind at 1, member at 1. unfold bind at 1, UTEXAS_ASSERT at 1.
  rewrite length_map, HD, Hlen, Nat.eqb_refl.
  unfold bind at 1. rewrite Hsample.
  rewrite (loop_exact lgamma RandomState rows (length lb) 0%Z 0 w);
    rewrite <- ?Hrows, ?firstn_all, ?Hwhole; try assumption; try lia.
  - unfold ret. f_equal. rewrite Z.add_0_l.
    rewrite Z.mod_small
      by (pose proof (Zsum_nonneg (map Int_part s)) as Hz;
          assert (0 <= Zsum (map Int_part s))%Z; [|lia];
          apply Hz, Forall_forall; intros k Hk; apply in_map_iff in Hk;
          destruct Hk as [x [<- Hx]]; apply Int_part_nonneg;
          rewrite Forall_forall in Hnn; now apply Hnn).
    unfold of_ulong. rewrite plus_IZR.
    assert (H0 : 0 <= IZR (Zsum (map Int_part s))).
    { apply IZR_le, Zsum_nonneg, Forall_forall. intros k Hk.
      apply in_map_iff in Hk. destruct Hk as [x [<- Hx]].
      apply Int_part_nonneg. rewrite Forall_forall in Hnn. now apply Hnn. }
    rewrite ln_gamma_Fin by (try lra; split_Rabs; lra).
    unfold rows. rewrite terms_sum by assumption.
    assert (Hb : Rabs (weighted_sum s lb - Rsum (map (fun x => lgamma (x + 1)) s))
                 <= Rsum (map (fun p => Rabs (lgamma (fst p + 1)) +
                                        Rabs (snd p * fst p)) rows)).
    { unfold rows, weighted_sum. clear - Hlen. revert lb Hlen.
      induction s as [|x s IH]; intros [|b lb] Hlen; simpl in *;
        try discriminate.
      - rewrite Rminus_0_r, Rabs_R0. lra.
      - specialize (IH lb ltac:(lia)). split_Rabs; lra. }
    rewrite add_Fin by (split_Rabs; lra).
    unfold log_pmf_at. f_equal. f_equal. lra.
  - now rewrite Hself.
  - rewrite Rabs_R0. lra.
Qed.

End Whole.

(** ** Frame: what a call leaves unchanged *)

Section Frame.

Variable RandomState : Type.

Local Abbreviation pure_call := (@pure_call RandomState _).
Local Abbreviation keeps_self := (@keeps_self RandomState _).

Lemma pure_ret {A : Type} (a : A) : pure_call (ret a).
Proof. intros w; reflexivity. Qed.

Lemma pure_member {A : Type} (f : Multinomial -> A) : pure_call (member f).
Proof. intros w; reflexivity. Qed.

Lemma pure_at_index (a : list double) (d : nat) : pure_call (at_index a d).
Proof. intros w; unfold at_index; now destruct (nth_error a d). Qed.

Lemma pure_converted {A : Type} (o : option A) : pure_call (converted o).
Proof. intros w; unfold converted; now destruct o. Qed.

Lemma pure_assert (b : bool) : pure_call (UTEXAS_ASSERT b).
Proof. intros w; unfold UTEXAS_ASSERT; now destruct b. Qed.

Lemma pure_bind {A B : Type} (c : M RandomState A) (k : A -> M RandomState B) :
  pure_call c -> (forall a, pure_call (k a)) -> pure_call (bind c k).
Proof.
  intros Hc Hk w. unfold bind. specialize (Hc w).
  destruct (c w) as [[a|e|] w']; simpl in Hc; subst; try reflexivity.
  apply Hk.
Qed.

Lemma keeps_self_pure {A : Type} (c : M RandomState A) :
  pure_call c -> keeps_self c.
Proof. intros H w; now rewrite H. Qed.

Lemma keeps_self_bind {A B : Type} (c : M RandomState A) (k : A -> M RandomState B) :
  keeps_self c -> (forall a, keeps_self (k a)) -> keeps_self (bind c k).
Proof.
  intros Hc Hk w. unfold bind. specialize (Hc w).
  destruct (c w) as [[a|e|] w']; simpl in Hc; try assumption.
  rewrite <- Hc. apply Hk.
Qed.

Lemma keeps_self_draw sampler (N : Z) (pvals : list double) :
  keeps_self (draw_multinomial (RandomState := RandomState) sampler N pvals).
Proof.
  intros w. unfold draw_multinomial.
  now destruct (sampler N pvals (random_state w)).
Qed.

Create HintDb frame.
Hint Resolve pure_ret pure_member pure_at_index pure_converted pure_assert
  keeps_self_draw : frame.

Lemma pure_loop (lgamma : R -> R) (sample : Sample) (d : nat) :
  forall n l, pure_call (log_likelihood_loop lgamma sample d n l).
Proof.
  induction d as [|d IH]; intros n l; cbn [log_likelihood_loop].
  - apply pure_ret.
  - repeat (apply pure_bind; [auto with frame|intros ?]). apply IH.
Qed.

Lemma pure_log_likelihood (lgamma : R -> R) (sample : Sample) :
  pure_call (log_likelihood lgamma sample).
Proof.
  unfold log_likelihood.
  apply pure_bind; [auto with frame|intros beta].
  apply pure_bind; [auto with frame|intros _].
  apply pure_bind; [apply pure_loop|intros [n l]]. apply pure_ret.
Qed.

Lemma keeps_self_variate sampler (N : Z) :
  keeps_self (variate (RandomState := RandomState) sampler N).
Proof.
  unfold variate.
  apply keeps_self_bind; [apply keeps_self_pure; auto with frame|intros pvals].
  apply keeps_self_bind; [auto with frame|intros counts].
  apply keeps_self_pure; auto with frame.
Qed.

End Frame.

(** ** Sign of the accumulated log-likelihood *)

Lemma fl_nonpositive (r : R) : r <= 0 -> nonpositive (fl r).
Proof.
  intros H. unfold fl, nonpositive. pose proof OVF_pos.
  destruct (Rle_dec OVF r); [lra|].
  destruct (Rle_dec r (- OVF)); [now left|right; now exists r].
Qed.

Lemma add_nonpositive (x y : double) :
  nonpositive x -> nonpositive y -> nonpositive (add x y).
Proof.
  intros [->|[a [-> Ha]]] [->|[b [-> Hb]]]; simpl; try now left.
  apply fl_nonpositive; lra.
Qed.

(** Subtracting a non-negative value that may have overflowed. *)
Lemma sub_fl_nonpositive (x : double) (g : R) :
  nonpositive x -> 0 <= g -> nonpositive (sub x (fl g)).
Proof.
  intros Hx Hg. unfold sub. apply add_nonpositive; [assumption|].
  unfold fl. pose proof OVF_pos.
  destruct (Rle_dec OVF g); [now left|].
  destruct (Rle_dec g (- OVF)); [lra|].
  right; exists (- g); split; [reflexivity|lra].
Qed.

Lemma add_finite_to_nonpositive (x : double) (g : R) :
  nonpositive x -> g < OVF -> add x (Fin g) = NInf \/ is_finite (add x (Fin g)).
Proof.
  intros [->|[a [-> Ha]]] Hg; simpl; [now left|].
  unfold fl. destruct (Rle_dec OVF (a + g)); [lra|].
  destruct (Rle_dec (a + g) (- OVF)); [now left|right; now eexists].
Qed.

Section Sign.

Variable lgamma : R -> R.
Variable RandomState : Type.
Hypothesis lgamma_counts : lgamma_on_counts lgamma.

(** A row pairs the count sample[d] with log_beta[d]. *)
Variable rows : list (Z * R).

Let sample : Sample := map (fun p => Fin (IZR (fst p))) rows.
Let log_beta : Beta := map (fun p => Fin (snd p)) rows.

(** One iteration on a non-negative count that keeps [n] in range. *)
Lemma loop_step (d : nat) (k : Z) (b : R) (n : Z) (l : double)
  (w : world RandomState) :
  _log_beta (self w) = log_beta ->
  nth_error rows d = Some (k, b) ->
  (0 <= k)%Z -> (0 <= n)%Z -> (n + k + 1 < ULONG_MODULUS)%Z ->
  log_likelihood_loop lgamma sample (S d) n l w =
  log_likelihood_loop lgamma sample d (n + k)%Z
    (add (sub l (fl (lgamma (IZR (k + 1))))) (fl (b * IZR k))) w.
Proof.
  intros Hself Hrow Hk Hn Hfit.
  assert (Hk1 : IZR k + 1 < IZR ULONG_MODULUS).
  { rewrite <- plus_IZR. apply IZR_lt. lia. }
  assert (Hk2 : 0 <= IZR k) by now apply IZR_le.
  assert (Hnk : IZR n + IZR k < IZR ULONG_MODULUS).
  { rewrite <- plus_IZR. apply IZR_lt. lia. }
  pose proof ULONG_below_OVF as HU. pose proof ULONG_MODULUS_pos as HU1.
  cbn [log_likelihood_loop].
  unfold bind at 1. unfold at_index at 1. unfold sample.
  rewrite nth_error_map, Hrow. cbn [option_map fst snd].
  unfold bind at 1.
  rewrite to_ulong_add by assumption. unfold converted at 1. cbv beta iota.
  rewrite Int_part_IZR.
  unfold bind at 1, member at 1. rewrite Hself.
  unfold bind at 1, at_index at 1. unfold log_beta.
  rewrite nth_error_map, Hrow. cbn [option_map fst snd].
  rewrite (add_Fin (IZR k) 1) by (split_Rabs; nra).
  rewrite <- plus_IZR.
  rewrite ln_gamma_positive by (apply IZR_lt; lia).
  reflexivity.
Qed.

Lemma step_nonpositive (k : Z) (b : R) (l : double) :
  (0 <= k)%Z -> b <= 0 -> nonpositive l ->
  nonpositive (add (sub l (fl (lgamma (IZR (k + 1))))) (fl (b * IZR k))).
Proof.
  intros Hk Hb Hl.
  assert (Hk2 : 0 <= IZR k) by now apply IZR_le.
  destruct (lgamma_counts (k + 1)%Z ltac:(lia)) as [Hg0 _].
  apply add_nonpositive.
  - now apply sub_fl_nonpositive.
  - apply fl_nonpositive. nra.
Qed.

(** With non-negative counts and non-positive log parameters every
    iteration returns, and the accumulated value stays non-positive: it is
    never NaN and never plus infinity. *)
Lemma loop_nonpositive (d : nat) :
  forall (n : Z) (l : double) (w : world RandomState),
    _log_beta (self w) = log_beta ->
    (d <= length rows)%nat ->
    Forall (fun p => (0 <= fst p)%Z /\ snd p <= 0) (firstn d rows) ->
    (0 <= n)%Z ->
    (n + Zsum (map fst (firstn d rows)) + 1 < ULONG_MODULUS)%Z ->
    nonpositive l ->
    exists l',
      log_likelihood_loop lgamma sample d n l w =
      (Returned ((n + Zsum (map fst (firstn d rows)))%Z, l'), w) /\
      nonpositive l'.
Proof.
  induction d as [|d IH]; intros n l w Hself Hlen Hok Hn Hfit Hl.
  - exists l. simpl. unfold ret. now rewrite Z.add_0_r.
  - destruct (nth_error rows d) as [[k b]|] eqn:Hrow;
      [|apply nth_error_None in Hrow; lia].
    rewrite (firstn_snoc _ _ _ Hrow) in *.
    rewrite !map_app, ?Zsum_app in *.
    apply Forall_app in Hok. destruct Hok as [Hok Hk].
    inversion Hk as [|? ? [Hk0 Hb0] _]; subst. simpl in Hk0, Hb0, Hfit.
    assert (Hz : (0 <= Zsum (map fst (firstn d rows)))%Z).
    { apply Zsum_nonneg, Forall_forall. intros z Hz. apply in_map_iff in Hz.
      destruct Hz as [p [<- Hp]]. rewrite Forall_forall in Hok.
      now apply Hok. }
    rewrite (loop_step d k b) by (assumption || lia).
    destruct (IH (n + k)%Z
                (add (sub l (fl (lgamma (IZR (k + 1))))) (fl (b * IZR k))) w)
      as [l' [Hrun Hl']]; try assumption; try lia.
    + now apply step_nonpositive.
    + exists l'. split; [|assumption]. rewrite Hrun. simpl.
      do 3 f_equal. lia.
Qed.

(** Once the accumulated value is minus infinity it stays so; and a count
    of two or more against the stored log -DBL_MAX makes it so, the
    product overflowing. *)
Lemma loop_minus_infinity (d : nat) :
  forall (n : Z) (l : double) (w : world RandomState),
    _log_beta (self w) = log_beta ->
    (d <= length rows)%nat ->
    Forall (fun p => (0 <= fst p)%Z /\ snd p <= 0) (firstn d rows) ->
    (0 <= n)%Z ->
    (n + Zsum (map fst (firstn d rows)) + 1 < ULONG_MODULUS)%Z ->
    nonpositive l ->
    l = NInf \/
    Exists (fun p => (2 <= fst p)%Z /\ snd p = - DBL_MAX) (firstn d rows) ->
    log_likelihood_loop lgamma sample d n l w =
    (Returned ((n + Zsum (map fst (firstn d rows)))%Z, NInf), w).
Proof.
  induction d as [|d IH]; intros n l w Hself Hlen Hok Hn Hfit Hl Hinf.
  - destruct Hinf as [->|Hex]; [|inversion Hex].
    simpl. unfold ret. now rewrite Z.add_0_r.
  - destruct (nth_error rows d) as [[k b]|] eqn:Hrow;
      [|apply nth_error_None in Hrow; lia].
    rewrite (firstn_snoc _ _ _ Hrow) in *.
    rewrite !map_app, ?Zsum_app in *.
    apply Forall_app in Hok. destruct Hok as [Hok Hk].
    inversion Hk as [|? ? [Hk0 Hb0] _]; subst. simpl in Hk0, Hb0, Hfit.
    assert (Hz : (0 <= Zsum (map fst (firstn d rows)))%Z).
    { apply Zsum_nonneg, Forall_forall. intros z Hz. apply in_map_iff in Hz.
      destruct Hz as [p [<- Hp]]. rewrite Forall_forall in Hok.
      now apply Hok. }
    rewrite (loop_step d k b) by (assumption || lia).
    pose proof (step_nonpositive k b l Hk0 Hb0 Hl) as Hl2.
    rewrite IH; try assumption; try lia.
    + simpl. do 3 f_equal. lia.
    + rewrite Exists_app in Hinf.
      destruct Hinf as [->|[Hex|Hex]]; [left|now right|left].
      * destruct (lgamma_counts (k + 1)%Z ltac:(lia)) as [Hg0 _].
        assert (Hsub : sub NInf (fl (lgamma (IZR (k + 1)))) = NInf).
        { unfold sub, fl.
          destruct (Rle_dec OVF (lgamma (IZR (k + 1)))); [reflexivity|].
          destruct (Rle_dec (lgamma (IZR (k + 1))) (- OVF));
            [pose proof OVF_pos; lra|reflexivity]. }
        rewrite Hsub.
        assert (Hp : nonpositive (fl (b * IZR k))).
        { apply fl_nonpositive. assert (0 <= IZR k) by now apply IZR_le. nra. }
        destruct Hp as [->|[r [-> _]]]; reflexivity.
      * inversion Hex as [? ? [Hk2 Hb]|? ? Hnil]; [|inversion Hnil].
        simpl in Hk2, Hb. subst b.
        assert (Hfl : fl (- DBL_MAX * IZR k) = NInf).
        { unfold fl. pose proof twice_DBL_MAX_overflows. pose proof OVF_pos.
          pose proof DBL_MAX_bounds.
          assert (2 <= IZR k) by now apply IZR_le.
          destruct (Rle_dec OVF (- DBL_MAX * IZR k)); [nra|].
          destruct (Rle_dec (- DBL_MAX * IZR k) (- OVF)); [reflexivity|nra]. }
        rewrite Hfl.
        destruct (lgamma_counts (k + 1)%Z ltac:(lia)) as [Hg0 _].
        destruct (sub_fl_nonpositive l _ Hl Hg0) as [->|[r [-> _]]];
          reflexivity.
Qed.

End Sign.

(** ** The instances *)

Lemma ln_le_pred (x : R) : 0 < x -> ln x <= x - 1.
Proof.
  intros Hx. destruct (Req_dec (ln x) 0) as [H0|H0].
  - rewrite H0. destruct (Rle_or_lt 1 x) as [H|H]; [lra|].
    apply (ln_increasing x 1 Hx) in H. rewrite ln_1 in H. lra.
  - pose proof (exp_ineq1 (ln x) H0) as H. rewrite exp_ln in H by assumption.
    lra.
Qed.

Lemma INR_fact_ge_1 (n : nat) : 1 <= INR (fact n).
Proof.
  change 1 with (INR 1). apply le_INR. pose proof (lt_O_fact n). lia.
Qed.

Lemma ln_fact_bounds (n : nat) : 0 <= ln (INR (fact n)) <= INR n * INR n.
Proof.
  induction n as [|n [IH0 IH1]].
  - simpl. rewrite ln_1. lra.
  - pose proof (INR_fact_ge_1 n) as Hf. pose proof (pos_INR n) as Hn.
    replace (INR (fact (S n))) with (INR (S n) * INR (fact n))
      by (rewrite <- mult_INR; reflexivity).
    rewrite S_INR in *. rewrite ln_mult by lra.
    pose proof (ln_le_pred (INR n + 1) ltac:(lra)) as Hl.
    assert (0 <= ln (INR n + 1)).
    { destruct Hn as [Hn| <-]; [|rewrite Rplus_0_l, ln_1; lra].
      rewrite <- ln_1. left. apply ln_increasing; lra. }
    split; nra.
Qed.

Lemma lgamma_fact_IZR (k : Z) :
  lgamma_fact (IZR k) = ln (INR (fact (Z.to_nat (k - 1)))).
Proof. unfold lgamma_fact; now rewrite Int_part_IZR. Qed.

Lemma lgamma_fact_on_counts : lgamma_on_counts lgamma_fact.
Proof.
  intros k Hk. rewrite lgamma_fact_IZR.
  destruct (ln_fact_bounds (Z.to_nat (k - 1))) as [H0 H1].
  split; [assumption|]. intros Hle.
  assert (Hn : INR (Z.to_nat (k - 1)) <= IZR ULONG_MODULUS).
  { rewrite INR_IZR_INZ. apply IZR_le. lia. }
  pose proof (pos_INR (Z.to_nat (k - 1))). pose proof ULONG_below_OVF.
  nra.
Qed.

Lemma first_category_contract : multinomial_contract first_category_sampler.
Proof.
  intros N pvals g HN [ps [-> [Hne _]]].
  destruct ps as [|p ps]; [contradiction|].
  eexists; exists g. split; [reflexivity|]. simpl.
  rewrite repeat_length, length_map. split; [reflexivity|]. split.
  - constructor; [assumption|]. apply Forall_forall.
    intros k Hk. apply repeat_spec in Hk. lia.
  - assert (Hz : forall n, Zsum (repeat 0%Z n) = 0%Z)
      by (induction n; simpl; lia).
    rewrite Hz. lia.
Qed.

(** ** Count vectors *)

Lemma counts_sum_zero (l : list Z) :
  Forall (fun k => (0 <= k)%Z) l -> Zsum l = 0%Z -> l = repeat 0%Z (length l).
Proof.
  induction 1 as [|k l Hk Hl IH]; intros Hsum; simpl in *; [reflexivity|].
  pose proof (Zsum_nonneg l Hl).
  assert (k = 0%Z) by lia. subst. f_equal. apply IH. lia.
Qed.

Lemma counts_sum_one (l : list Z) :
  Forall (fun k => (0 <= k)%Z) l -> Zsum l = 1%Z ->
  exists i, (i < length l)%nat /\ l = one_hot (length l) i.
Proof.
  induction 1 as [|k l Hk Hl IH]; intros Hsum; simpl in *; [lia|].
  pose proof (Zsum_nonneg l Hl).
  destruct (Z.eq_dec k 0) as [->|Hk0].
  - destruct IH as [i [Hi Heq]]; [lia|].
    exists (S i). split; [lia|]. simpl. now rewrite <- Heq.
  - assert (k = 1%Z) by lia. subst.
    exists O. split; [lia|]. simpl. f_equal.
    apply counts_sum_zero; [assumption|lia].
Qed.

Lemma one_hot_single (D i : nat) :
  (i < D)%nat ->
  nth_error (one_hot D i) i = Some 1%Z /\
  forall j, (j < D)%nat -> j <> i -> nth_error (one_hot D i) j = Some 0%Z.
Proof.
  revert i; induction D as [|D IH]; intros i Hi; [lia|].
  destruct i as [|i]; simpl.
  - split; [reflexivity|]. intros [|j] Hj Hne; [contradiction|]. simpl.
    apply nth_error_repeat. lia.
  - destruct (IH i ltac:(lia)) as [H1 H0]. split; [assumption|].
    intros [|j] Hj Hne; [reflexivity|]. simpl. apply H0; lia.
Qed.

(** ** The claims *)

Lemma init_self (raw : Beta) (m : Multinomial) :
  Multinomial_init raw = Returned m ->
  exists lb,
    _log_beta m = map Fin lb /\ map to_R (_log_beta m) = lb /\
    length lb = length raw /\ length (_beta m) = length raw.
Proof.
  intros H. destruct (init_shape raw) as [m' [lb [Hm [Hb [Hlb Hlen]]]]].
  rewrite Hm in H. inversion H; subst m'. exists lb.
  repeat split; try assumption.
  rewrite Hlb, map_map. simpl. apply map_id.
Qed.

Lemma Int_part_counts (ks : list Z) : map Int_part (map IZR ks) = ks.
Proof.
  rewrite map_map. rewrite <- (map_id ks) at 2. apply map_ext.
  intros k. apply Int_part_IZR.
Qed.

Lemma counts_nonneg (ks : list Z) :
  Forall (fun k => (0 <= k)%Z) ks -> Forall (fun x => 0 <= x) (map IZR ks).
Proof.
  intros H. apply Forall_forall. intros x Hx. apply in_map_iff in Hx.
  destruct Hx as [k [<- Hk]]. rewrite Forall_forall in H.
  apply IZR_le. now apply H.
Qed.

(** C1.  For every distribution the constructor builds and every sample of
    length D whose entries are non-negative integers (the count vectors of
    the data model), [log_likelihood] returns
    lgamma(n + 1) - sum_d lgamma(sample[d] + 1) + sum_d sample[d] * log_beta[d]
    with n the sum of the entries of the sample itself, provided the trial
    count fits an unsigned long and the finite sum does not overflow. *)
Theorem log_likelihood_formula
  (lgamma : R -> R) (RandomState : Type) (w : world RandomState)
  (raw : Beta) (ks : list Z) :
  Multinomial_init raw = Returned (self w) ->
  length ks = length raw ->
  Forall (fun k => (0 <= k)%Z) ks ->
  (Zsum ks + 1 < ULONG_MODULUS)%Z ->
  magnitude lgamma (Rsum (map IZR ks))
    (map to_R (_log_beta (self w))) (map IZR ks) < OVF ->
  log_likelihood lgamma (map (fun k => Fin (IZR k)) ks) w =
  (Returned
     (Fin (log_pmf lgamma (map to_R (_log_beta (self w))) (map IZR ks))), w).
Proof.
  intros Hinit Hlen Hks Hfit Hmag.
  destruct (init_self raw (self w) Hinit) as [lb [Hlb [HR [Hl1 Hl2]]]].
  rewrite HR in *. unfold log_pmf. rewrite Rsum_IZR in *.
  rewrite <- (Int_part_counts ks) at 2.
  rewrite <- (map_map IZR Fin).
  apply log_likelihood_exact; rewrite ?Int_part_counts, ?length_map;
    try assumption; try lia.
  now apply counts_nonneg.
Qed.

(** C10.  The trial count is accumulated in an unsigned long: for a sample
    of non-negative entries, fractional or not, the term lgamma(n + 1) is
    taken at the sum of the integer parts of the entries, while the terms
    lgamma(sample[d] + 1) and sample[d] * log_beta[d] use the entries
    themselves. *)
Theorem log_likelihood_truncates_trial_count
  (lgamma : R -> R) (RandomState : Type) (w : world RandomState)
  (raw : Beta) (s : list R) :
  Multinomial_init raw = Returned (self w) ->
  length s = length raw ->
  Forall (fun x => 0 <= x) s ->
  (Zsum (map Int_part s) + 1 < ULONG_MODULUS)%Z ->
  magnitude lgamma (IZR (Zsum (map Int_part s)))
    (map to_R (_log_beta (self w))) s < OVF ->
  log_likelihood lgamma (map Fin s) w =
  (Returned
     (Fin (lgamma (IZR (Zsum (map Int_part s)) + 1)
           - Rsum (map (fun x => lgamma (x + 1)) s)
           + weighted_sum s (map to_R (_log_beta (self w))))), w).
Proof.
  intros Hinit Hlen Hs Hfit Hmag.
  destruct (init_self raw (self w) Hinit) as [lb [Hlb [HR [Hl1 Hl2]]]].
  rewrite HR in *.
  apply (log_likelihood_exact lgamma RandomState w lb s);
    try assumption; lia.
Qed.

(** C6.  [log_likelihood] signals DimensionMismatchError for every sample
    whose length differs from D; the call then delivers no value and the
    world, the distribution included, is as before the call. *)
Theorem log_likelihood_dimension_mismatch
  (lgamma : R -> R) (RandomState : Type) (w : world RandomState)
  (sample : Sample) :
  length sample <> length (_beta (self w)) ->
  log_likelihood lgamma sample w = (Signalled DimensionMismatchError, w).
Proof.
  intros Hne. unfold log_likelihood.
  unfold bind at 1, member at 1. unfold bind at 1, UTEXAS_ASSERT at 1.
  apply Nat.eqb_neq in Hne. now rewrite Hne.
Qed.

(** C9.  Every operation leaves the vectors beta and log_beta of the
    instance unchanged: [variate] only advances the random generator, and
    [indicator], [log_likelihood], [get_beta] and [get_log_beta] leave the
    whole world as it was. *)
Theorem operations_keep_parameters
  (lgamma : R -> R) (RandomState : Type)
  (sampler : Z -> list double -> RandomState -> outcome (list Z) * RandomState)
  (w : world RandomState) :
  (forall N, self (snd (variate sampler N w)) = self w) /\
  self (snd (variate1 sampler w)) = self w /\
  snd (indicator w) = w /\
  (forall sample, snd (log_likelihood lgamma sample w) = w) /\
  snd (get_beta w) = w /\
  snd (get_log_beta w) = w.
Proof.
  repeat split.
  - intros N. apply keeps_self_variate.
  - apply keeps_self_variate.
  - intros sample. apply pure_log_likelihood.
Qed.

(** C8.  [indicator] has no body: a call draws nothing (the random
    generator is not advanced) and delivers no index. *)
Theorem indicator_returns_nothing (RandomState : Type) (w : world RandomState) :
  indicator w = (Undefined, w).
Proof. reflexivity. Qed.

(** C5, as the code has it.  Construction never signals: for every raw
    parameter vector, with a negative entry or a zero sum or neither, the
    constructor returns a distribution whose two vectors have the length of
    the raw vector. *)
Theorem construction_never_signals (raw : Beta) :
  exists m,
    Multinomial_init raw = Returned m /\
    length (_beta m) = length raw /\
    length (_log_beta m) = length raw.
Proof.
  destruct (init_shape raw) as [m [lb [Hm [Hb [Hlb Hlen]]]]].
  exists m. repeat split; try assumption.
  now rewrite Hlb, length_map.
Qed.

(** C5 as stated fails: a raw vector summing to zero, and one with a
    negative entry, are accepted; the first yields NaN probabilities. *)
Lemma construction_accepts_invalid_vectors :
  Multinomial_init [Fin 0; Fin 0] =
    Returned {| _beta := [NaN; NaN]; _log_beta := [Fin 0; Fin 0] |} /\
  Multinomial_init [Fin 0; Fin 0] <> Signalled InvalidParameterError /\
  Multinomial_init [Fin (-1); Fin 2] <> Signalled InvalidParameterError.
Proof.
  assert (Hsum : Numpy.sum [Fin 0; Fin 0] = Fin 0).
  { change [Fin 0; Fin 0] with (map Fin [0; 0]).
    rewrite (numpy_sum_nonneg [0; 0]).
    - simpl. f_equal. lra.
    - repeat constructor; lra.
    - simpl. pose proof OVF_pos. lra. }
  assert (Hinit : Multinomial_init [Fin 0; Fin 0] =
    Returned {| _beta := [NaN; NaN]; _log_beta := [Fin 0; Fin 0] |}).
  { unfold Multinomial_init. rewrite Hsum. unfold Numpy.divide.
    cbn [map]. rewrite div_zero_zero. reflexivity. }
  split; [assumption|]. split.
  - rewrite Hinit. discriminate.
  - unfold Multinomial_init. discriminate.
Qed.

Lemma normalised_sum (rs : list R) :
  0 < Rsum rs -> Rsum (map (fun r => r / Rsum rs) rs) = 1.
Proof. intros H. rewrite Rsum_scale. unfold Rdiv. apply Rinv_r. lra. Qed.

Lemma normalised_entries (rs : list R) :
  Forall (fun r => 0 <= r) rs -> 0 < Rsum rs ->
  Forall (fun p => 0 <= p <= 1) (map (fun r => r / Rsum rs) rs).
Proof.
  intros Hrs Hpos. apply Forall_forall. intros p Hp.
  apply in_map_iff in Hp. destruct Hp as [r [<- Hr]].
  now apply entry_normalised.
Qed.

Lemma normalised_valid (rs : list R) :
  Forall (fun r => 0 <= r) rs -> 0 < Rsum rs ->
  valid_pvals (map (fun r => Fin (r / Rsum rs)) rs).
Proof.
  intros Hrs Hpos. exists (map (fun r => r / Rsum rs) rs).
  rewrite map_map. split; [reflexivity|]. split.
  - destruct rs; [simpl in Hpos; lra|discriminate].
  - split; [now apply normalised_entries|now apply normalised_sum].
Qed.

(** C4.  For every raw parameter vector of non-negative entries with a
    strictly positive sum (which excludes the empty vector and, as a double,
    must not overflow), the constructed beta is that vector divided by its
    own sum, and beta sums to 1. *)
Theorem construction_normalises (rs : list R) :
  Forall (fun r => 0 <= r) rs -> 0 < Rsum rs -> Rsum rs < OVF ->
  exists m,
    Multinomial_init (map Fin rs) = Returned m /\
    (1 <= length (_beta m))%nat /\
    _beta m = map (fun r => Fin (r / Rsum rs)) rs /\
    Numpy.sum (_beta m) = Fin 1.
Proof.
  intros Hrs Hpos Hlt. eexists. split; [now apply init_normalised|].
  cbn [_beta]. split; [|split; [reflexivity|]].
  - rewrite length_map. destruct rs; simpl in *; [lra|lia].
  - rewrite <- (map_map (fun r => r / Rsum rs) Fin).
    rewrite numpy_sum_nonneg.
    + now rewrite normalised_sum.
    + eapply Forall_impl; [|now apply normalised_entries].
      intros p Hp; apply Hp.
    + rewrite normalised_sum by assumption. pose proof ULONG_below_OVF.
      pose proof ULONG_MODULUS_pos. nra.
Qed.

(** C3, as the code has it.  After construction, for every index d: if
    beta[d] == 0 then log_beta[d] is the most negative finite double,
    -DBL_MAX, which is what nan_to_num makes of log(0) = -infinity; if
    beta[d] > 0 then log_beta[d] is the natural log of beta[d]; and no
    entry of log_beta is NaN or infinite. *)
Theorem log_beta_after_construction (raw : Beta) (m : Multinomial) (d : nat) :
  Multinomial_init raw = Returned m ->
  (nth_error (_beta m) d = Some (Fin 0) ->
   nth_error (_log_beta m) d = Some (Fin (- DBL_MAX))) /\
  (forall p, 0 < p -> nth_error (_beta m) d = Some (Fin p) ->
   nth_error (_log_beta m) d = Some (Fin (ln p))) /\
  (forall x, nth_error (_log_beta m) d = Some x -> is_finite x).
Proof.
  intros H. unfold Multinomial_init in H. inversion H; subst m; clear H.
  cbn [_beta _log_beta]. unfold Numpy.nan_to_num, Numpy.log.
  rewrite map_map. repeat split.
  - intros Hb. rewrite nth_error_map, Hb. cbn [option_map].
    now rewrite log_zero.
  - intros p Hp Hb. rewrite nth_error_map, Hb. cbn [option_map].
    now rewrite log_positive.
  - intros x Hx. rewrite nth_error_map in Hx.
    destruct (nth_error (Numpy.divide raw (Numpy.sum raw)) d) as [b|];
      [|discriminate].
    inversion Hx. eexists. apply nan_to_num1_finite.
Qed.

(** C3 as stated fails: for the raw vector [1, 0] the second probability
    is zero and its stored log is -DBL_MAX, not zero. *)
Lemma log_beta_of_zero_is_not_zero :
  exists m,
    Multinomial_init [Fin 1; Fin 0] = Returned m /\
    nth_error (_beta m) 1 = Some (Fin 0) /\
    nth_error (_log_beta m) 1 = Some (Fin (- DBL_MAX)) /\
    nth_error (_log_beta m) 1 <> Some (Fin 0).
Proof.
  assert (Hs : Rsum [1; 0] = 1) by (simpl; lra).
  eexists. split.
  - change [Fin 1; Fin 0] with (map Fin [1; 0]).
    apply init_normalised; rewrite ?Hs; try lra.
    + repeat constructor; lra.
    + pose proof ULONG_below_OVF. pose proof ULONG_MODULUS_pos. nra.
  - rewrite Hs. cbn [_beta _log_beta map nth_error].
    replace (0 / 1) with 0 by lra. rewrite stored_log_zero.
    repeat split. intros H. inversion H as [H0].
    pose proof DBL_MAX_bounds. lra.
Qed.

(** C7.  Relative to the documented contract of the library sampler, and
    for a distribution built from non-negative parameters with a positive
    sum: for every N >= 0, [variate N] returns a vector of length D of
    non-negative integers that sum to N; for N = 0 it is the all-zero
    vector; [variate1], the call without argument, is [variate 1], whose
    result is a one-hot vector. *)
Theorem variate_counts
  (RandomState : Type)
  (sampler : Z -> list double -> RandomState -> outcome (list Z) * RandomState)
  (w : world RandomState) (rs : list R) (N : Z) :
  multinomial_contract sampler ->
  Forall (fun r => 0 <= r) rs -> 0 < Rsum rs -> Rsum rs < OVF ->
  Multinomial_init (map Fin rs) = Returned (self w) ->
  (0 <= N)%Z ->
  exists counts g',
    variate sampler N w =
      (Returned (map (fun k => Fin (IZR k)) counts),
       {| self := self w; random_state := g' |}) /\
    length counts = length (_beta (self w)) /\
    Forall (fun k => (0 <= k)%Z) counts /\
    Zsum counts = N /\
    (N = 0%Z -> counts = repeat 0%Z (length (_beta (self w)))) /\
    (N = 1%Z -> exists i, (i < length (_beta (self w)))%nat /\
                          counts = one_hot (length (_beta (self w))) i) /\
    variate1 sampler w = variate sampler 1 w.
Proof.
  intros Hc Hrs Hpos Hlt Hinit HN.
  assert (Hbeta : _beta (self w) = map (fun r => Fin (r / Rsum rs)) rs).
  { rewrite init_normalised in Hinit by assumption.
    injection Hinit as <-. reflexivity. }
  destruct (Hc N (_beta (self w)) (random_state w) HN) as
    [counts [g' [Hrun [Hlen [Hnn Hsum]]]]].
  { rewrite Hbeta. now apply normalised_valid. }
  exists counts, g'. split.
  - unfold variate, bind, member, draw_multinomial. now rewrite Hrun.
  - repeat split; try assumption.
    + intros ->. rewrite <- Hlen. now apply counts_sum_zero.
    + intros ->. rewrite <- Hlen. now apply counts_sum_one.
Qed.

Lemma weighted_sum_convention (ks : list Z) (ps : list R) :
  length ks = length ps ->
  Forall (fun p => 0 <= p) ps ->
  Forall (fun kp => snd kp = 0 -> fst kp = 0%Z) (combine ks ps) ->
  weighted_sum (map IZR ks) (map stored_log ps) =
  weighted_sum (map IZR ks) (map spec_log_beta ps).
Proof.
  unfold weighted_sum.
  revert ps; induction ks as [|k ks IH]; intros [|p ps] Hlen Hps Hz;
    simpl in *; try discriminate; [reflexivity|].
  inversion Hps as [|? ? Hp Hps']; subst.
  inversion Hz as [|? ? Hk Hz']; subst. simpl in Hk.
  rewrite IH by (assumption || lia). f_equal.
  unfold spec_log_beta. destruct (Req_dec_T p 0) as [->|Hne].
  - rewrite Hk by reflexivity. lra.
  - rewrite stored_log_positive by lra. reflexivity.
Qed.

(** C2, as the code has it.  For every distribution built from
    non-negative parameters with a positive sum and every sample of length
    D whose entries are non-negative integers, [log_likelihood] returns a
    finite real number or negative infinity, never NaN.  The code has no
    test for a positive count on a zero-probability category: such a count
    multiplies the stored log -DBL_MAX.  If some index has beta[d] == 0
    and sample[d] >= 2 the product overflows and the call returns negative
    infinity (a count of 1 can leave the result finite, see the
    counterexample).  If no index with beta[d] == 0 has a positive count
    (and the finite sum does not overflow) the result is finite and is the
    specification's formula with the convention 0 * log(0) = 0. *)
Theorem log_likelihood_never_nan
  (lgamma : R -> R) (RandomState : Type) (w : world RandomState)
  (rs : list R) (ks : list Z) :
  lgamma_on_counts lgamma ->
  Forall (fun r => 0 <= r) rs -> 0 < Rsum rs -> Rsum rs < OVF ->
  Multinomial_init (map Fin rs) = Returned (self w) ->
  length ks = length rs ->
  Forall (fun k => (0 <= k)%Z) ks ->
  (Zsum ks + 1 < ULONG_MODULUS)%Z ->
  exists x,
    log_likelihood lgamma (map (fun k => Fin (IZR k)) ks) w = (Returned x, w) /\
    (x = NInf \/ is_finite x) /\
    (Exists (fun kb => (2 <= fst kb)%Z /\ snd kb = Fin 0)
            (combine ks (_beta (self w))) -> x = NInf) /\
    (Forall (fun kb => snd kb = Fin 0 -> fst kb = 0%Z)
            (combine ks (_beta (self w))) ->
     magnitude lgamma (Rsum (map IZR ks))
       (map to_R (_log_beta (self w))) (map IZR ks) < OVF ->
     x = Fin (log_pmf lgamma
                (map (fun b => spec_log_beta (to_R b)) (_beta (self w)))
                (map IZR ks))).
Proof.
  intros Hg Hrs Hpos Hlt Hinit Hlen Hks Hfit.
  set (ps := map (fun r => r / Rsum rs) rs).
  assert (Hself : _beta (self w) = map Fin ps /\
                  _log_beta (self w) = map Fin (map stored_log ps)).
  { rewrite init_normalised in Hinit by assumption.
    injection Hinit as <-. unfold ps. now rewrite !map_map. }
  destruct Hself as [Hbeta Hlogs].
  assert (Hps : Forall (fun p => 0 <= p <= 1) ps)
    by now apply normalised_entries.
  assert (Hlps : length ps = length rs) by (unfold ps; now rewrite length_map).
  set (rows := combine ks (map stored_log ps)).
  assert (Hrows : length rows = length ks).
  { unfold rows. rewrite length_combine, length_map. lia. }
  assert (Hfirst : firstn (length ks) rows = rows)
    by (rewrite <- Hrows; apply firstn_all).
  destruct (loop_nonpositive lgamma RandomState Hg rows (length ks) 0%Z (Fin 0) w)
    as [l' [Hrun Hl']].
  - rewrite Hlogs. unfold rows. rewrite map_snd_combine; [reflexivity|].
    rewrite length_map. lia.
  - lia.
  - rewrite Hfirst. apply Forall_forall. intros [k b] Hin.
    unfold rows in Hin. pose proof (in_combine_l _ _ _ _ Hin) as Hk.
    apply in_combine_r in Hin. apply in_map_iff in Hin.
    destruct Hin as [p [<- Hp]]. rewrite Forall_forall in Hks, Hps.
    split; [now apply Hks|]. apply stored_log_nonpositive. now apply Hps.
  - lia.
  - rewrite Hfirst. unfold rows.
    rewrite (map_fst_combine (fun k => k)), map_id by (rewrite length_map; lia).
    lia.
  - right. exists 0. split; [reflexivity|lra].
  - rewrite Hfirst in Hrun. unfold rows in Hrun.
    rewrite (map_fst_combine (fun k => Fin (IZR k))) in Hrun
      by (rewrite length_map; lia).
    rewrite (map_fst_combine (fun k => k)), map_id in Hrun
      by (rewrite length_map; lia).
    assert (Hcall :
      log_likelihood lgamma (map (fun k => Fin (IZR k)) ks) w =
      (Returned (add l' (Fin (lgamma (IZR (Zsum ks + 1))))), w)).
    { unfold log_likelihood.
      unfold bind at 1, member at 1. unfold bind at 1, UTEXAS_ASSERT at 1.
      rewrite Hbeta, !length_map, Hlps, Hlen, Nat.eqb_refl.
      unfold bind at 1. rewrite <- Hlen, Hrun. unfold ret. f_equal. f_equal.
      pose proof (Zsum_nonneg ks Hks).
      rewrite Z.add_0_l, Z.mod_small by lia.
      unfold of_ulong. rewrite ln_gamma_positive by (apply IZR_lt; lia).
      destruct (Hg (Zsum ks + 1)%Z ltac:(lia)) as [Hg0 Hg1].
      rewrite fl_exact; [reflexivity|].
      pose proof OVF_pos. split; [lra|]. apply Hg1. lia. }
    eexists. split; [exact Hcall|]. split; [|split].
    + apply add_finite_to_nonpositive; [assumption|].
      pose proof (Zsum_nonneg ks Hks).
      destruct (Hg (Zsum ks + 1)%Z ltac:(lia)) as [_ Hg1]. apply Hg1. lia.
    + intros Hex.
      assert (Hl'' : l' = NInf); [|now rewrite Hl''].
      pose proof (loop_minus_infinity lgamma RandomState Hg rows (length ks)
                    0%Z (Fin 0) w) as Hinf.
      rewrite Hfirst in Hinf. unfold rows in Hinf.
      rewrite (map_fst_combine (fun k => Fin (IZR k))) in Hinf
        by (rewrite length_map; lia).
      rewrite (map_fst_combine (fun k => k)), map_id in Hinf
        by (rewrite length_map; lia).
      rewrite Hrun in Hinf. fold rows in Hinf.
      enough (Heq : (Returned ((0 + Zsum ks)%Z, l'), w) =
                    (Returned ((0 + Zsum ks)%Z, NInf), w))
        by (now injection Heq).
      apply Hinf; try assumption; try lia.
      * rewrite Hlogs. unfold rows. rewrite map_snd_combine; [reflexivity|].
        rewrite length_map. lia.
      * apply Forall_forall. intros [k b] Hin.
        unfold rows in Hin. pose proof (in_combine_l _ _ _ _ Hin) as Hk.
        apply in_combine_r in Hin. apply in_map_iff in Hin.
        destruct Hin as [p [<- Hp]]. rewrite Forall_forall in Hks, Hps.
        split; [now apply Hks|]. apply stored_log_nonpositive. now apply Hps.
      * right. exists 0. split; [reflexivity|lra].
      * right. rewrite Hbeta in Hex. unfold rows. clear - Hex.
        revert Hex. generalize ps. induction ks as [|k ks IH];
          intros [|p qs] Hex; simpl in *; try now inversion Hex.
        inversion Hex as [? ? [Hk Hp]|? ? Hex']; subst; simpl in *.
        -- left. simpl. split; [assumption|].
           injection Hp as ->. apply stored_log_zero.
        -- right. now apply IH.
    + intros Hzero Hmag.
      assert (HR : map to_R (_log_beta (self w)) = map stored_log ps).
      { rewrite Hlogs, map_map. apply map_id. }
      rewrite HR in Hmag. rewrite Rsum_IZR in Hmag.
      pose proof (log_likelihood_exact lgamma RandomState w
                    (map stored_log ps) (map IZR ks) Hlogs) as Hexact.
      rewrite Int_part_counts, !length_map in Hexact.
      rewrite Hbeta, length_map in Hexact.
      specialize (Hexact eq_refl ltac:(lia) (counts_nonneg ks Hks) Hfit Hmag).
      rewrite map_map, Hcall in Hexact. injection Hexact as ->. f_equal.
      rewrite Hbeta, map_map. cbn [to_R].
      unfold log_pmf. rewrite Rsum_IZR. unfold log_pmf_at. f_equal.
      apply weighted_sum_convention.
      * lia.
      * eapply Forall_impl; [|exact Hps]. intros p Hp; apply Hp.
      * rewrite Hbeta in Hzero. clear - Hzero.
        revert Hzero. generalize ps. induction ks as [|k ks IH];
          intros [|p qs] Hzero; simpl in *; constructor.
        -- inversion Hzero as [|? ? Hk _]; subst. simpl in *.
           intros ->. now apply Hk.
        -- inversion Hzero; subst. now apply IH.
Qed.

(** ** The model on concrete distributions *)

Lemma init_half_half : Multinomial_init [Fin 1; Fin 1] = Returned half_half.
Proof.
  assert (Hs : Rsum [1; 1] = 2) by (simpl; lra).
  change [Fin 1; Fin 1] with (map Fin [1; 1]).
  rewrite init_normalised; rewrite ?Hs; try lra.
  - cbn [map]. rewrite stored_log_positive by lra. reflexivity.
  - repeat constructor; lra.
  - pose proof thousand_below_OVF. lra.
Qed.

Lemma init_one_zero : Multinomial_init [Fin 1; Fin 0] = Returned one_zero.
Proof.
  assert (Hs : Rsum [1; 0] = 1) by (simpl; lra).
  change [Fin 1; Fin 0] with (map Fin [1; 0]).
  rewrite init_normalised; rewrite ?Hs; try lra.
  - cbn [map]. replace (1 / 1) with 1 by lra. replace (0 / 1) with 0 by lra.
    rewrite stored_log_zero, stored_log_positive, ln_1 by lra. reflexivity.
  - repeat constructor; lra.
  - pose proof thousand_below_OVF. lra.
Qed.

Lemma lgamma_fact_small (k : Z) :
  (1 <= k <= 2)%Z -> lgamma_fact (IZR k) = 0.
Proof.
  intros Hk. rewrite lgamma_fact_IZR.
  assert (Hn : (Z.to_nat (k - 1) <= 1)%nat) by lia.
  destruct (Z.to_nat (k - 1)) as [|[|n]]; simpl; try apply ln_1. lia.
Qed.

Lemma ln_half_bounds : -1 <= ln (1 / 2) <= 0.
Proof.
  replace (1 / 2) with (/ 2) by lra. rewrite ln_Rinv by lra.
  pose proof (ln_le_pred 2 ltac:(lra)). pose proof ln_lt_2. lra.
Qed.

(** The stored log -DBL_MAX times a count of one stays finite; times a
    count of two it overflows. *)
Lemma one_zero_count_one :
  log_likelihood lgamma_fact [Fin 0; Fin 1] (world_of one_zero) =
  (Returned (Fin (- DBL_MAX)), world_of one_zero).
Proof.
  pose proof (log_likelihood_exact lgamma_fact unit (world_of one_zero)
                [0; - DBL_MAX] [IZR 0; IZR 1] eq_refl eq_refl eq_refl) as H.
  change [IZR 0; IZR 1] with (map IZR [0%Z; 1%Z]) in H.
  rewrite Int_part_counts in H. cbn [map Zsum fold_right Z.add Pos.add] in H.
  unfold magnitude, log_pmf_at, weighted_sum in H.
  cbn [map combine Rsum fold_right fst snd] in H.
  replace (0 + 1) with (IZR 1) in H by lra.
  replace (1 + 1) with (IZR 2) in H by lra.
  rewrite !lgamma_fact_small in H by lia.
  rewrite H.
  - do 3 f_equal. lra.
  - repeat constructor; lra.
  - reflexivity.
  - pose proof DBL_MAX_bounds. split_Rabs; lra.
Qed.

(** C2 as stated fails: with beta = [1, 0] and sample = [0, 1] the second
    category has probability zero and a positive count, and the call
    returns the finite value -DBL_MAX, not negative infinity. *)
Lemma zero_probability_count_stays_finite :
  Multinomial_init [Fin 1; Fin 0] = Returned (self (world_of one_zero)) /\
  nth_error (_beta (self (world_of one_zero))) 1 = Some (Fin 0) /\
  nth_error [Fin 0; Fin 1] 1 = Some (Fin 1) /\
  log_likelihood lgamma_fact [Fin 0; Fin 1] (world_of one_zero) =
    (Returned (Fin (- DBL_MAX)), world_of one_zero) /\
  fst (log_likelihood lgamma_fact [Fin 0; Fin 1] (world_of one_zero))
    <> Returned NInf.
Proof.
  split; [exact init_one_zero|]. split; [reflexivity|].
  split; [reflexivity|]. split; [exact one_zero_count_one|].
  rewrite one_zero_count_one. discriminate.
Qed.

Lemma lgamma_fact_low (x : R) : x < 3 -> lgamma_fact x = 0.
Proof.
  intros Hx. unfold lgamma_fact.
  destruct (base_Int_part x) as [Hle _].
  assert (Hi : (Int_part x < 3)%Z) by (apply lt_IZR; lra).
  assert (Hn : (Z.to_nat (Int_part x - 1) <= 1)%nat) by lia.
  destruct (Z.to_nat (Int_part x - 1)) as [|[|n]]; simpl; try apply ln_1. lia.
Qed.

Lemma lgamma_fact_bound (k : Z) :
  (1 <= k)%Z -> Rabs (lgamma_fact (IZR k)) <= IZR (k - 1) * IZR (k - 1).
Proof.
  intros Hk. rewrite lgamma_fact_IZR.
  destruct (ln_fact_bounds (Z.to_nat (k - 1))) as [H0 H1].
  rewrite (INR_IZR_INZ (Z.to_nat (k - 1))), Z2Nat.id in H1 by lia.
  rewrite Rabs_pos_eq by assumption. exact H1.
Qed.

Lemma Int_part_half : Int_part (1 / 2) = 0%Z.
Proof. symmetry. apply Int_part_spec. lra. Qed.

(** ** Witnesses: the theorems at concrete inputs *)

Lemma half_half_magnitude :
  magnitude lgamma_fact (Rsum (map IZR [3; 2]%Z))
    (map to_R (_log_beta (self (world_of half_half)))) (map IZR [3; 2]%Z) < OVF.
Proof.
  unfold magnitude, world_of, half_half.
  cbn [self _log_beta map to_R combine Rsum fold_right fst snd].
  replace (3 + 1) with (IZR 4) by lra.
  replace (2 + 1) with (IZR 3) by lra.
  replace (3 + (2 + 0) + 1) with (IZR 6) by lra.
  pose proof (lgamma_fact_bound 4 ltac:(lia)) as H4.
  pose proof (lgamma_fact_bound 3 ltac:(lia)) as H3.
  pose proof (lgamma_fact_bound 6 ltac:(lia)) as H6.
  simpl in H4, H3, H6.
  pose proof ln_half_bounds as Hh. pose proof thousand_below_OVF as HU.
  assert (Ha : Rabs (ln (1 / 2) * 3) <= 3) by (split_Rabs; lra).
  assert (Hb : Rabs (ln (1 / 2) * 2) <= 2) by (split_Rabs; lra).
  lra.
Qed.

(** The example of the specification: beta = [0.5, 0.5], sample = [3, 2]. *)
Lemma log_likelihood_formula_witness :
  log_likelihood lgamma_fact [Fin 3; Fin 2] (world_of half_half) =
  (Returned (Fin (log_pmf lgamma_fact [ln (1 / 2); ln (1 / 2)] [3; 2])),
   world_of half_half).
Proof.
  apply (log_likelihood_formula lgamma_fact unit (world_of half_half)
           [Fin 1; Fin 1] [3; 2]%Z).
  - exact init_half_half.
  - reflexivity.
  - repeat constructor; lia.
  - reflexivity.
  - exact half_half_magnitude.
Defined.

(** A fractional sample: the entries 1/2 and 1/2 sum to 1, the trial count
    the code uses is 0. *)
Lemma log_likelihood_truncates_trial_count_witness :
  Zsum (map Int_part [1 / 2; 1 / 2]) = 0%Z /\
  log_likelihood lgamma_fact [Fin (1 / 2); Fin (1 / 2)] (world_of half_half) =
  (Returned
     (Fin (lgamma_fact (IZR (Zsum (map Int_part [1 / 2; 1 / 2])) + 1)
           - Rsum (map (fun x => lgamma_fact (x + 1)) [1 / 2; 1 / 2])
           + weighted_sum [1 / 2; 1 / 2] [ln (1 / 2); ln (1 / 2)])),
   world_of half_half).
Proof.
  assert (Hz : Zsum (map Int_part [1 / 2; 1 / 2]) = 0%Z).
  { cbn [map Zsum fold_right]. rewrite Int_part_half. reflexivity. }
  split; [exact Hz|].
  apply (log_likelihood_truncates_trial_count lgamma_fact unit
           (world_of half_half) [Fin 1; Fin 1] [1 / 2; 1 / 2]).
  - exact init_half_half.
  - reflexivity.
  - repeat constructor; lra.
  - rewrite Hz. reflexivity.
  - rewrite Hz. unfold magnitude, world_of, half_half.
    cbn [self _log_beta map to_R combine Rsum fold_right fst snd].
    rewrite !lgamma_fact_low by lra.
    pose proof ln_half_bounds as Hh. pose proof thousand_below_OVF as HU.
    assert (Ha : Rabs (ln (1 / 2) * (1 / 2)) <= 1) by (split_Rabs; lra).
    rewrite Rabs_R0. lra.
Defined.

(** beta = [0.5, 0.5], sample = [3, 2] gives the finite value of the
    formula; beta = [1, 0], sample = [0, 2] gives negative infinity. *)
Lemma log_likelihood_never_nan_witness :
  log_likelihood lgamma_fact [Fin 3; Fin 2] (world_of half_half) =
    (Returned
       (Fin (log_pmf lgamma_fact
               [spec_log_beta (1 / 2); spec_log_beta (1 / 2)] [3; 2])),
     world_of half_half) /\
  log_likelihood lgamma_fact [Fin 0; Fin 2] (world_of one_zero) =
    (Returned NInf, world_of one_zero).
Proof.
  split.
  - destruct (log_likelihood_never_nan lgamma_fact unit (world_of half_half)
                [1; 1] [3; 2]%Z) as [x [Hrun [_ [_ Hfin]]]].
    + exact lgamma_fact_on_counts.
    + repeat constructor; lra.
    + simpl; lra.
    + simpl. pose proof thousand_below_OVF. lra.
    + exact init_half_half.
    + reflexivity.
    + repeat constructor; lia.
    + reflexivity.
    + cbn [map] in Hrun.
      rewrite Hrun, Hfin; [reflexivity| |exact half_half_magnitude].
      repeat constructor; simpl; intros H; injection H; lra.
  - destruct (log_likelihood_never_nan lgamma_fact unit (world_of one_zero)
                [1; 0] [0; 2]%Z) as [x [Hrun [_ [Hinf _]]]].
    + exact lgamma_fact_on_counts.
    + repeat constructor; lra.
    + simpl; lra.
    + simpl. pose proof thousand_below_OVF. lra.
    + exact init_one_zero.
    + reflexivity.
    + repeat constructor; lia.
    + reflexivity.
    + cbn [map] in Hrun.
      rewrite Hrun, Hinf; [reflexivity|].
      right. left. split; [simpl; lia|reflexivity].
Defined.

Lemma log_beta_after_construction_witness :
  nth_error (_log_beta one_zero) 1 = Some (Fin (- DBL_MAX)) /\
  nth_error (_log_beta one_zero) 0 = Some (Fin (ln 1)).
Proof.
  split.
  - apply (log_beta_after_construction [Fin 1; Fin 0] one_zero 1 init_one_zero).
    reflexivity.
  - apply (log_beta_after_construction [Fin 1; Fin 0] one_zero 0 init_one_zero).
    + lra.
    + reflexivity.
Defined.

Lemma construction_normalises_witness :
  exists m,
    Multinomial_init (map Fin [1; 1]) = Returned m /\
    (1 <= length (_beta m))%nat /\
    _beta m = map (fun r => Fin (r / Rsum [1; 1])) [1; 1] /\
    Numpy.sum (_beta m) = Fin 1.
Proof.
  apply (construction_normalises [1; 1]).
  - repeat constructor; lra.
  - simpl; lra.
  - simpl. pose proof thousand_below_OVF. lra.
Defined.

Lemma log_likelihood_dimension_mismatch_witness :
  log_likelihood lgamma_fact [Fin 3] (world_of half_half) =
  (Signalled DimensionMismatchError, world_of half_half).
Proof.
  apply (log_likelihood_dimension_mismatch lgamma_fact unit
           (world_of half_half) [Fin 3]).
  simpl. lia.
Defined.

Lemma variate_counts_witness :
  exists counts g',
    variate first_category_sampler 5 (world_of half_half) =
      (Returned (map (fun k => Fin (IZR k)) counts),
       {| self := half_half; random_state := g' |}) /\
    length counts = 2%nat /\
    Forall (fun k => (0 <= k)%Z) counts /\
    Zsum counts = 5%Z.
Proof.
  destruct (variate_counts unit first_category_sampler (world_of half_half)
              [1; 1] 5) as [counts [g' [Hrun [Hlen [Hnn [Hsum _]]]]]].
  - exact first_category_contract.
  - repeat constructor; lra.
  - simpl; lra.
  - simpl. pose proof thousand_below_OVF. lra.
  - exact init_half_half.
  - lia.
  - exists counts, g'. repeat split; assumption.
Defined.

(** ** Further properties of the constructor *)





(** X3.  Invariant established by the constructor on non-negative
    parameters with a positive sum: beta and log_beta have the length of
    the raw vector, every beta[d] is a finite number in [0, 1], and every
    log_beta[d] is a finite number that is at most 0. *)
Theorem constructed_probabilities (rs : list R) (m : Multinomial) :
  Forall (fun r => 0 <= r) rs -> 0 < Rsum rs -> Rsum rs < OVF ->
  Multinomial_init (map Fin rs) = Returned m ->
  length (_beta m) = length rs /\
  length (_log_beta m) = length rs /\
  Forall (fun b => exists p, b = Fin p /\ 0 <= p <= 1) (_beta m) /\
  Forall (fun b => exists l, b = Fin l /\ l <= 0) (_log_beta m).
Proof.
  intros Hrs Hpos Hlt Hinit.
  rewrite init_normalised in Hinit by assumption.
  injection Hinit as <-. cbn [_beta _log_beta]. rewrite !length_map.
  repeat split; apply Forall_forall; intros b Hb; apply in_map_iff in Hb;
    destruct Hb as [r [<- Hr]]; eexists; (split; [reflexivity|]).
  - now apply entry_normalised.
  - apply stored_log_nonpositive. now apply entry_normalised.
Qed.

Lemma sum_NaN_absorbs (a : list double) : fold_left add a NaN = NaN.
Proof. induction a as [|x a IH]; simpl; [reflexivity|exact IH]. Qed.

Lemma sum_with_NaN (a : list double) :
  In NaN a -> forall x, fold_left add a x = NaN.
Proof.
  induction a as [|y a IH]; intros Hin x; simpl in *; [contradiction|].
  destruct Hin as [->|Hin]; [|now apply IH].
  replace (add x NaN) with NaN by (destruct x; reflexivity).
  apply sum_NaN_absorbs.
Qed.

(** X4.  A NaN anywhere in the raw vector poisons the whole distribution
    without any error: every beta[d] is NaN and every log_beta[d] is 0. *)
Theorem construction_with_NaN (raw : Beta) :
  In NaN raw ->
  Multinomial_init raw =
  Returned {| _beta := repeat NaN (length raw);
              _log_beta := repeat (Fin 0) (length raw) |}.
Proof.
  intros Hin. unfold Multinomial_init, Numpy.sum.
  rewrite (sum_with_NaN raw Hin).
  assert (Hdiv : Numpy.divide raw NaN = repeat NaN (length raw)).
  { unfold Numpy.divide.
    transitivity (map (fun _ : double => NaN) raw); [|apply map_const].
    apply map_ext. intros x. destruct x; reflexivity. }
  rewrite Hdiv. do 2 f_equal.
  unfold Numpy.nan_to_num, Numpy.log. rewrite map_map.
  transitivity (map (fun _ : double => Fin 0) (repeat NaN (length raw))).
  - apply map_ext_in. intros x Hx. apply repeat_spec in Hx. now subst.
  - rewrite map_const. now rewrite repeat_length.
Qed.

(** X5.  A negative raw entry is accepted silently: when the raw vector
    sums to a positive finite number, the probability stored for a negative
    entry is negative and its stored log is 0. *)
Theorem construction_negative_entry
  (raw : Beta) (m : Multinomial) (S r : R) (d : nat) :
  Numpy.sum raw = Fin S -> 0 < S ->
  nth_error raw d = Some (Fin r) -> r < 0 -> - OVF < r / S ->
  Multinomial_init raw = Returned m ->
  nth_error (_beta m) d = Some (Fin (r / S)) /\ r / S < 0 /\
  nth_error (_log_beta m) d = Some (Fin 0).
Proof.
  intros Hsum HS Hd Hr Hlo Hinit.
  unfold Multinomial_init in Hinit. rewrite Hsum in Hinit.
  injection Hinit as <-. cbn [_beta _log_beta].
  assert (Hneg : r / S < 0).
  { unfold Rdiv. apply Rmult_neg_pos; [assumption|].
    now apply Rinv_0_lt_compat. }
  unfold Numpy.nan_to_num, Numpy.log, Numpy.divide.
  rewrite !nth_error_map, Hd. cbn [option_map].
  rewrite div_Fin by (try lra; split_Rabs; lra).
  repeat split; try assumption.
  simpl. destruct (total_order_T (r / S) 0) as [[Hlt|Heq]|Hgt];
    try lra; reflexivity.
Qed.

(** ** Further properties of [log_likelihood] *)

Section Outcomes.

Variable lgamma : R -> R.
Variable RandomState : Type.
Variable sample : Sample.

(** The loop has no statement that signals: it returns or is undefined,
    and the world is as before either way. *)
Lemma loop_outcome (d : nat) :
  forall (n : Z) (l : double) (w : world RandomState),
    exists o, log_likelihood_loop lgamma sample d n l w = (o, w) /\
              forall e, o <> Signalled e.
Proof.
  induction d as [|d IH]; intros n l w; cbn [log_likelihood_loop].
  - eexists. split; [reflexivity|discriminate].
  - unfold bind at 1, at_index at 1.
    destruct (nth_error sample d) as [s|];
      [|eexists; split; [reflexivity|discriminate]].
    unfold bind at 1, converted at 1.
    destruct (to_ulong (add (of_ulong n) s)) as [n'|];
      [|eexists; split; [reflexivity|discriminate]].
    unfold bind at 1, member at 1. unfold bind at 1, at_index at 1.
    destruct (nth_error (_log_beta (self w)) d) as [lb|];
      [|eexists; split; [reflexivity|discriminate]].
    apply IH.
Qed.

(** An entry that is NaN or infinite among the indices still to visit
    makes the conversion to unsigned long undefined. *)
Lemma loop_nonfinite (d : nat) :
  forall (n : Z) (l : double) (w : world RandomState) (i : nat) (x : double),
    (i < d)%nat -> nth_error sample i = Some x -> ~ is_finite x ->
    log_likelihood_loop lgamma sample d n l w = (Undefined, w).
Proof.
  induction d as [|d IH]; intros n l w i x Hi Hx Hnf; [lia|].
  cbn [log_likelihood_loop].
  unfold bind at 1, at_index at 1.
  destruct (nth_error sample d) as [s|] eqn:Hs; [|reflexivity].
  unfold bind at 1, converted at 1.
  destruct (Nat.eq_dec i d) as [->|Hne].
  - rewrite Hx in Hs. injection Hs as <-.
    destruct x as [| | |r]; try reflexivity.
    exfalso. apply Hnf. now exists r.
  - destruct (to_ulong (add (of_ulong n) s)) as [n'|]; [|reflexivity].
    unfold bind at 1, member at 1. unfold bind at 1, at_index at 1.
    destruct (nth_error (_log_beta (self w)) d) as [lb|]; [|reflexivity].
    apply (IH _ _ _ i x); [lia|assumption|assumption].
Qed.

End Outcomes.

(** X6.  A sample of the right length with an entry that is NaN or
    infinite has no defined result: the conversion of the running trial
    count to unsigned long is out of range.  No value is returned, no error
    is signalled, and the world is unchanged. *)
Theorem log_likelihood_nonfinite_sample
  (lgamma : R -> R) (RandomState : Type) (w : world RandomState)
  (sample : Sample) (i : nat) (x : double) :
  length sample = length (_beta (self w)) ->
  nth_error sample i = Some x -> ~ is_finite x ->
  log_likelihood lgamma sample w = (Undefined, w).
Proof.
  intros Hlen Hx Hnf. unfold log_likelihood.
  unfold bind at 1, member at 1. unfold bind at 1, UTEXAS_ASSERT at 1.
  rewrite Hlen, Nat.eqb_refl. unfold bind at 1.
  rewrite (loop_nonfinite lgamma RandomState sample _ _ _ _ i x);
    try assumption; [reflexivity|].
  rewrite <- Hlen. apply nth_error_Some. now rewrite Hx.
Qed.

(** X7.  The only error [log_likelihood] can signal is
    DimensionMismatchError, and it signals it only for a sample whose length
    differs from D: with the right length the call returns a value or is
    undefined, whatever the entries. *)
Theorem log_likelihood_only_error
  (lgamma : R -> R) (RandomState : Type) (w : world RandomState)
  (sample : Sample) (e : error) :
  fst (log_likelihood lgamma sample w) = Signalled e ->
  e = DimensionMismatchError /\ length sample <> length (_beta (self w)).
Proof.
  unfold log_likelihood.
  unfold bind at 1, member at 1. unfold bind at 1, UTEXAS_ASSERT at 1.
  destruct (Nat.eqb (length sample) (length (_beta (self w)))) eqn:Hlen.
  - unfold bind at 1.
    destruct (loop_outcome lgamma RandomState sample
                (length (_beta (self w))) 0%Z (Fin 0) w) as [o [Hr Ho]].
    rewrite Hr. destruct o as [[n l]|e'|]; simpl; try discriminate.
    now destruct (Ho e').
  - simpl. intros H. injection H as <-. split; [reflexivity|].
    now apply Nat.eqb_neq.
Qed.

Section ParticularSamples.

Variable lgamma : R -> R.
Hypothesis lgamma_1 : lgamma 1 = 0.

(** The sums of the formula over an all-zero sample. *)
Lemma zero_sample_terms (lb : list R) :
  let s := map IZR (repeat 0%Z (length lb)) in
  Rsum (map (fun p => Rabs (lgamma (fst p + 1)) + Rabs (snd p * fst p))
            (combine s lb)) = 0 /\
  Rsum (map (fun x => lgamma (x + 1)) s) = 0 /\
  weighted_sum s lb = 0.
Proof.
  unfold weighted_sum.
  induction lb as [|b lb [IH1 [IH2 IH3]]]; simpl in *; [lra|].
  rewrite IH1, IH2, IH3.
  replace (0 + 1) with 1 by lra. rewrite lgamma_1, Rmult_0_r, Rmult_0_l.
  rewrite Rabs_R0. lra.
Qed.

Lemma zero_counts (n : nat) :
  Zsum (repeat 0%Z n) = 0%Z /\ Forall (fun k => (0 <= k)%Z) (repeat 0%Z n).
Proof.
  induction n as [|n [IH1 IH2]]; simpl; split; try constructor;
    try assumption; lia.
Qed.

Hypothesis lgamma_2 : lgamma 2 = 0.

(** The sums of the formula over a one-hot sample. *)
Lemma one_hot_terms (D : nat) :
  forall (i : nat) (lb : list R) (b : R),
    length lb = D -> nth_error lb i = Some b ->
    let s := map IZR (one_hot D i) in
    Rsum (map (fun p => Rabs (lgamma (fst p + 1)) + Rabs (snd p * fst p))
              (combine s lb)) = Rabs b /\
    Rsum (map (fun x => lgamma (x + 1)) s) = 0 /\
    weighted_sum s lb = b.
Proof.
  unfold weighted_sum.
  induction D as [|D IH]; intros i [|b0 lb] b Hlen Hb; simpl in Hlen;
    try discriminate.
  - destruct i; discriminate.
  - destruct i as [|i]; simpl in Hb |- *.
    + injection Hb as ->. injection Hlen as <-.
      destruct (zero_sample_terms lb) as [H1 [H2 H3]].
      unfold weighted_sum in H3. simpl in H1, H2, H3.
      rewrite H1, H2, H3.
      replace (1 + 1) with 2 by lra. rewrite lgamma_2, Rabs_R0, Rmult_1_r,
        Rmult_1_l.
      repeat split; lra.
    + injection Hlen as Hlen.
      destruct (IH i lb b Hlen Hb) as [H1 [H2 H3]]. simpl in H1, H2, H3.
      rewrite H1, H2, H3.
      replace (0 + 1) with 1 by lra. rewrite lgamma_1, Rmult_0_r, Rmult_0_l.
      rewrite Rabs_R0. repeat split; lra.
Qed.

Lemma one_hot_counts (D : nat) :
  forall i, (i < D)%nat ->
    length (one_hot D i) = D /\ Zsum (one_hot D i) = 1%Z /\
    Forall (fun k => (0 <= k)%Z) (one_hot D i).
Proof.
  induction D as [|D IH]; intros i Hi; [lia|].
  destruct i as [|i]; simpl.
  - destruct (zero_counts D) as [Hz Hf]. rewrite repeat_length, Hz.
    repeat split; try constructor; try assumption; lia.
  - destruct (IH i ltac:(lia)) as [Hl [Hz Hf]]. rewrite Hl, Hz.
    repeat split; try constructor; try assumption; lia.
Qed.

Variable RandomState : Type.

(** The log-likelihood of a one-hot sample is the stored log of its
    category. *)
Lemma one_hot_likelihood (w : world RandomState) (lb : list R) (i : nat) (b : R) :
  _log_beta (self w) = map Fin lb ->
  length (_beta (self w)) = length lb ->
  nth_error lb i = Some b -> Rabs b < OVF ->
  log_likelihood lgamma
    (map (fun k => Fin (IZR k)) (one_hot (length lb) i)) w =
  (Returned (Fin b), w).
Proof.
  intros Hlb Hlen Hb Hrange.
  assert (Hi : (i < length lb)%nat) by (apply nth_error_Some; now rewrite Hb).
  destruct (one_hot_counts (length lb) i Hi) as [Hl [Hz Hf]].
  destruct (one_hot_terms (length lb) i lb b eq_refl Hb) as [H1 [H2 H3]].
  cbv zeta in H1, H2, H3.
  pose proof (log_likelihood_exact lgamma RandomState w lb
                (map IZR (one_hot (length lb) i)) Hlb Hlen) as Hexact.
  rewrite Int_part_counts, Hz, length_map, map_map in Hexact.
  rewrite Hexact.
  - unfold log_pmf_at. rewrite H2, H3.
    replace (1 + 1) with 2 by lra. rewrite lgamma_2. do 3 f_equal. lra.
  - exact Hl.
  - now apply counts_nonneg.
  - reflexivity.
  - unfold magnitude. rewrite H1.
    replace (1 + 1) with 2 by lra. rewrite lgamma_2, Rabs_R0. lra.
Qed.

End ParticularSamples.

(** X8.  For every distribution the constructor builds, from whatever raw
    vector, the all-zero sample of length D has log-likelihood exactly 0
    (log-Gamma being 0 at 1): zero counts never touch the stored logs, not
    even the clamped ones. *)
Theorem log_likelihood_zero_sample
  (lgamma : R -> R) (RandomState : Type) (w : world RandomState) (raw : Beta) :
  lgamma 1 = 0 ->
  Multinomial_init raw = Returned (self w) ->
  log_likelihood lgamma (repeat (Fin 0) (length raw)) w = (Returned (Fin 0), w).
Proof.
  intros Hg Hinit.
  destruct (init_self raw (self w) Hinit) as [lb [Hlb [_ [Hl1 Hl2]]]].
  destruct (zero_sample_terms lgamma Hg lb) as [H1 [H2 H3]].
  destruct (zero_counts (length lb)) as [Hz Hf].
  cbv zeta in H1, H2, H3.
  pose proof (log_likelihood_exact lgamma RandomState w lb
                (map IZR (repeat 0%Z (length lb))) Hlb) as Hexact.
  rewrite Int_part_counts, Hz, length_map, repeat_length in Hexact.
  rewrite !map_repeat in Hexact. rewrite <- Hl1, Hexact.
  - unfold log_pmf_at. rewrite <- !map_repeat, H2, H3.
    replace (0 + 1) with 1 by lra. rewrite Hg. do 3 f_equal. lra.
  - lia.
  - reflexivity.
  - rewrite <- map_repeat. now apply counts_nonneg.
  - reflexivity.
  - unfold magnitude. rewrite <- !map_repeat, H1.
    replace (0 + 1) with 1 by lra. rewrite Hg, Rabs_R0.
    pose proof OVF_pos. lra.
Qed.

(** X9.  For every distribution the constructor builds, the log-likelihood
    of the one-hot sample of category i is the stored log_beta[i] (log-Gamma
    being 0 at 1 and 2), provided that value is in double range: the finite
    -DBL_MAX when beta[i] == 0. *)
Theorem log_likelihood_one_hot
  (lgamma : R -> R) (RandomState : Type) (w : world RandomState)
  (raw : Beta) (i : nat) (b : R) :
  lgamma 1 = 0 -> lgamma 2 = 0 ->
  Multinomial_init raw = Returned (self w) ->
  nth_error (_log_beta (self w)) i = Some (Fin b) -> Rabs b < OVF ->
  log_likelihood lgamma
    (map (fun k => Fin (IZR k)) (one_hot (length raw) i)) w =
  (Returned (Fin b), w).
Proof.
  intros H1 H2 Hinit Hb Hrange.
  destruct (init_self raw (self w) Hinit) as [lb [Hlb [_ [Hl1 Hl2]]]].
  rewrite <- Hl1.
  apply (one_hot_likelihood lgamma H1 H2 RandomState w lb i b);
    try assumption; try lia.
  rewrite Hlb, nth_error_map in Hb.
  destruct (nth_error lb i) as [b'|]; [|discriminate].
  simpl in Hb. now injection Hb as ->.
Qed.

(** A count vector of the right length always has a log-likelihood, and it
    is a finite number or minus infinity. *)
Lemma likelihood_of_counts
  (lgamma : R -> R) (RandomState : Type) (w : world RandomState)
  (rs : list R) (ks : list Z) :
  lgamma_on_counts lgamma ->
  Forall (fun r => 0 <= r) rs -> 0 < Rsum rs -> Rsum rs < OVF ->
  Multinomial_init (map Fin rs) = Returned (self w) ->
  length ks = length rs ->
  Forall (fun k => (0 <= k)%Z) ks ->
  (Zsum ks + 1 < ULONG_MODULUS)%Z ->
  exists x,
    log_likelihood lgamma (map (fun k => Fin (IZR k)) ks) w = (Returned x, w) /\
    (x = NInf \/ is_finite x).
Proof.
  intros Hg Hrs Hpos Hlt Hinit Hlen Hks Hfit.
  set (ps := map (fun r => r / Rsum rs) rs).
  assert (Hself : _beta (self w) = map Fin ps /\
                  _log_beta (self w) = map Fin (map stored_log ps)).
  { rewrite init_normalised in Hinit by assumption.
    injection Hinit as <-. unfold ps. now rewrite !map_map. }
  destruct Hself as [Hbeta Hlogs].
  assert (Hps : Forall (fun p => 0 <= p <= 1) ps)
    by now apply normalised_entries.
  assert (Hlps : length ps = length rs) by (unfold ps; now rewrite length_map).
  set (rows := combine ks (map stored_log ps)).
  assert (Hrows : length rows = length ks).
  { unfold rows. rewrite length_combine, length_map. lia. }
  assert (Hfirst : firstn (length ks) rows = rows)
    by (rewrite <- Hrows; apply firstn_all).
  assert (Hfst : map fst rows = ks).
  { unfold rows. rewrite (map_fst_combine (fun k => k)), map_id;
      [reflexivity|rewrite length_map; lia]. }
  pose proof (Zsum_nonneg ks Hks) as Hz.
  destruct (loop_nonpositive lgamma RandomState Hg rows (length ks) 0%Z (Fin 0) w)
    as [l' [Hrun Hl']]; rewrite ?Hfirst, ?Hfst; try lia.
  - rewrite Hlogs. unfold rows. rewrite map_snd_combine; [reflexivity|].
    rewrite length_map. lia.
  - apply Forall_forall. intros [k b] Hin.
    unfold rows in Hin. pose proof (in_combine_l _ _ _ _ Hin) as Hk.
    apply in_combine_r in Hin. apply in_map_iff in Hin.
    destruct Hin as [p [<- Hp]]. rewrite Forall_forall in Hks, Hps.
    split; [now apply Hks|]. apply stored_log_nonpositive. now apply Hps.
  - right. exists 0. split; [reflexivity|lra].
  - rewrite Hfirst, Hfst in Hrun. unfold rows in Hrun.
    rewrite (map_fst_combine (fun k => Fin (IZR k))) in Hrun
      by (rewrite length_map; lia).
    destruct (Hg (Zsum ks + 1)%Z ltac:(lia)) as [Hg0 Hg1].
    exists (add l' (Fin (lgamma (IZR (Zsum ks + 1))))). split.
    + unfold log_likelihood.
      unfold bind at 1, member at 1. unfold bind at 1, UTEXAS_ASSERT at 1.
      rewrite Hbeta, !length_map, Hlps, Hlen, Nat.eqb_refl.
      unfold bind at 1. rewrite <- Hlen, Hrun. unfold ret. f_equal. f_equal.
      rewrite Z.add_0_l, Z.mod_small by lia.
      unfold of_ulong. rewrite ln_gamma_positive by (apply IZR_lt; lia).
      rewrite fl_exact; [reflexivity|].
      pose proof OVF_pos. split; [lra|]. apply Hg1. lia.
    + apply add_finite_to_nonpositive; [assumption|]. apply Hg1. lia.
Qed.

(** X10.  Sampling and evaluation compose: for a distribution built from
    non-negative parameters with a positive sum and 0 <= N with N + 1 in
    unsigned long range, the vector [variate N] returns is accepted by
    [log_likelihood], which signals nothing and returns a finite number or
    minus infinity, never NaN (relative to the sampler's contract). *)
Theorem variate_then_log_likelihood
  (lgamma : R -> R) (RandomState : Type)
  (sampler : Z -> list double -> RandomState -> outcome (list Z) * RandomState)
  (w : world RandomState) (rs : list R) (N : Z) :
  multinomial_contract sampler -> lgamma_on_counts lgamma ->
  Forall (fun r => 0 <= r) rs -> 0 < Rsum rs -> Rsum rs < OVF ->
  Multinomial_init (map Fin rs) = Returned (self w) ->
  (0 <= N)%Z -> (N + 1 < ULONG_MODULUS)%Z ->
  exists s w' x,
    variate sampler N w = (Returned s, w') /\
    log_likelihood lgamma s w' = (Returned x, w') /\
    (x = NInf \/ is_finite x).
Proof.
  intros Hc Hg Hrs Hpos Hlt Hinit HN HN1.
  assert (Hbeta : _beta (self w) = map (fun r => Fin (r / Rsum rs)) rs).
  { rewrite init_normalised in Hinit by assumption.
    injection Hinit as <-. reflexivity. }
  destruct (Hc N (_beta (self w)) (random_state w) HN) as
    [counts [g' [Hrun [Hlen [Hnn Hsum]]]]].
  { rewrite Hbeta. now apply normalised_valid. }
  set (w' := {| self := self w; random_state := g' |}).
  destruct (likelihood_of_counts lgamma RandomState w' rs counts)
    as [x [Hx Hfin]]; try assumption.
  - rewrite Hlen, Hbeta. now rewrite length_map.
  - lia.
  - exists (map (fun k => Fin (IZR k)) counts), w', x.
    split; [|split; assumption].
    unfold variate, bind, member, draw_multinomial. now rewrite Hrun.
Qed.

(** X11.  A distribution with a single category, built from any positive
    raw parameter, gives every count k (within range) the log-likelihood 0:
    the two log-Gamma terms cancel and the stored log of probability 1
    is 0. *)
Theorem single_category_likelihood
  (lgamma : R -> R) (RandomState : Type) (w : world RandomState) (r : R) (k : Z) :
  0 < r -> r < OVF ->
  Multinomial_init [Fin r] = Returned (self w) ->
  (0 <= k)%Z -> (k + 1 < ULONG_MODULUS)%Z ->
  2 * Rabs (lgamma (IZR k + 1)) < OVF ->
  log_likelihood lgamma [Fin (IZR k)] w = (Returned (Fin 0), w).
Proof.
  intros Hr Hlt Hinit Hk Hk1 Hmag.
  assert (Hs : Rsum [r] = r) by (simpl; lra).
  change [Fin r] with (map Fin [r]) in Hinit.
  rewrite init_normalised in Hinit;
    rewrite ?Hs; try lra; [|repeat constructor; lra].
  rewrite Hs in Hinit. cbn [map] in Hinit.
  replace (r / r) with 1 in Hinit by (field; lra).
  rewrite stored_log_positive, ln_1 in Hinit by lra.
  injection Hinit as Hself.
  assert (Hlb : _log_beta (self w) = map Fin [0])
    by (rewrite <- Hself; reflexivity).
  assert (Hlen : length (_beta (self w)) = length [0])
    by (rewrite <- Hself; reflexivity).
  pose proof (log_likelihood_exact lgamma RandomState w [0] [IZR k]
                Hlb Hlen eq_refl) as Hexact.
  cbn [map Zsum fold_right] in Hexact.
  rewrite Int_part_IZR, Z.add_0_r in Hexact.
  rewrite Hexact.
  - unfold log_pmf_at, weighted_sum. simpl. do 3 f_equal. lra.
  - constructor; [now apply IZR_le|constructor].
  - exact Hk1.
  - unfold magnitude. simpl. rewrite Rmult_0_l, Rabs_R0. lra.
Qed.

(** X12.  The log-likelihood of a single draw is the stored log of the
    drawn category: [variate1] returns the one-hot vector of some index
    i < D, and [log_likelihood] of that vector returns log_beta[i] when it
    is in double range (log-Gamma being 0 at 1 and 2; relative to the
    sampler's contract). *)
Theorem single_draw_likelihood
  (lgamma : R -> R) (RandomState : Type)
  (sampler : Z -> list double -> RandomState -> outcome (list Z) * RandomState)
  (w : world RandomState) (rs : list R) :
  multinomial_contract sampler -> lgamma 1 = 0 -> lgamma 2 = 0 ->
  Forall (fun r => 0 <= r) rs -> 0 < Rsum rs -> Rsum rs < OVF ->
  Multinomial_init (map Fin rs) = Returned (self w) ->
  exists i s w',
    (i < length rs)%nat /\
    variate1 sampler w = (Returned s, w') /\
    s = map (fun k => Fin (IZR k)) (one_hot (length rs) i) /\
    forall b, nth_error (_log_beta (self w)) i = Some (Fin b) ->
              Rabs b < OVF ->
              log_likelihood lgamma s w' = (Returned (Fin b), w').
Proof.
  intros Hc H1 H2 Hrs Hpos Hlt Hinit.
  destruct (init_self _ _ Hinit) as [lb [Hlb [_ [Hl1 Hl2]]]].
  rewrite length_map in Hl1, Hl2.
  assert (Hbeta : _beta (self w) = map (fun r => Fin (r / Rsum rs)) rs).
  { rewrite init_normalised in Hinit by assumption.
    injection Hinit as <-. reflexivity. }
  destruct (Hc 1%Z (_beta (self w)) (random_state w) ltac:(lia)) as
    [counts [g' [Hrun [Hlen [Hnn Hsum]]]]].
  { rewrite Hbeta. now apply normalised_valid. }
  destruct (counts_sum_one counts Hnn Hsum) as [i [Hi Hhot]].
  rewrite Hlen, Hl2 in Hi, Hhot.
  set (w' := {| self := self w; random_state := g' |}).
  exists i, (map (fun k => Fin (IZR k)) counts), w'.
  split; [assumption|]. split.
  { unfold variate1, variate, bind, member, draw_multinomial.
    now rewrite Hrun. }
  split; [now rewrite Hhot|].
  intros b Hb Hrange. rewrite Hhot, <- Hl1.
  apply (one_hot_likelihood lgamma H1 H2 RandomState w' lb i b);
    try assumption; try (simpl; lia).
  rewrite Hlb, nth_error_map in Hb.
  destruct (nth_error lb i) as [b'|]; [|discriminate].
  simpl in Hb. now injection Hb as ->.
Qed.

(** ** Witnesses of the further properties *)

Lemma unit_pair_valid :
  Forall (fun r => 0 <= r) [1; 1] /\ 0 < Rsum [1; 1] /\ Rsum [1; 1] < OVF.
Proof.
  repeat split; [repeat constructor; lra|simpl; lra|].
  simpl. pose proof thousand_below_OVF. lra.
Qed.

Lemma init_single (r : R) :
  0 < r -> r < OVF ->
  Multinomial_init [Fin r] =
  Returned {| _beta := [Fin 1]; _log_beta := [Fin 0] |}.
Proof.
  intros Hr Hlt. assert (Hs : Rsum [r] = r) by (simpl; lra).
  change [Fin r] with (map Fin [r]).
  rewrite init_normalised; rewrite ?Hs; try lra; [|repeat constructor; lra].
  cbn [map]. replace (r / r) with 1 by (field; lra).
  now rewrite stored_log_positive, ln_1 by lra.
Qed.



Lemma constructed_probabilities_witness :
  length (_beta half_half) = 2%nat /\
  length (_log_beta half_half) = 2%nat /\
  Forall (fun b => exists p, b = Fin p /\ 0 <= p <= 1) (_beta half_half) /\
  Forall (fun b => exists l, b = Fin l /\ l <= 0) (_log_beta half_half).
Proof.
  destruct unit_pair_valid as [Hf [Hp Hl]].
  apply (constructed_probabilities [1; 1] half_half); try assumption.
  exact init_half_half.
Defined.

Lemma construction_with_NaN_witness :
  Multinomial_init [NaN; Fin 1] =
  Returned {| _beta := [NaN; NaN]; _log_beta := [Fin 0; Fin 0] |}.
Proof.
  apply (construction_with_NaN [NaN; Fin 1]). left. reflexivity.
Defined.

Lemma construction_negative_entry_witness :
  exists m,
    Multinomial_init [Fin (-1); Fin 2] = Returned m /\
    nth_error (_beta m) 0 = Some (Fin (-1 / 1)) /\
    nth_error (_log_beta m) 0 = Some (Fin 0).
Proof.
  destruct (init_shape [Fin (-1); Fin 2]) as [m [lb [Hm _]]].
  exists m. split; [exact Hm|].
  assert (Hsum : Numpy.sum [Fin (-1); Fin 2] = Fin 1).
  { pose proof thousand_below_OVF. unfold Numpy.sum. simpl.
    rewrite (fl_exact (0 + -1)) by lra. simpl.
    rewrite fl_exact by lra. f_equal. lra. }
  destruct (construction_negative_entry [Fin (-1); Fin 2] m 1 (-1) 0 Hsum)
    as [Hb [_ Hl]]; try reflexivity; try lra; try assumption.
  - pose proof thousand_below_OVF. lra.
  - split; assumption.
Defined.

Lemma log_likelihood_nonfinite_sample_witness :
  log_likelihood lgamma_fact [NaN; Fin 1] (world_of half_half) =
  (Undefined, world_of half_half).
Proof.
  apply (log_likelihood_nonfinite_sample lgamma_fact unit
           (world_of half_half) [NaN; Fin 1] 0 NaN); try reflexivity.
  intros [r Hr]. discriminate Hr.
Defined.

Lemma log_likelihood_only_error_witness :
  DimensionMismatchError = DimensionMismatchError /\
  length (@nil double) <> length (_beta (self (world_of half_half))).
Proof.
  apply (log_likelihood_only_error lgamma_fact unit (world_of half_half) []
           DimensionMismatchError).
  reflexivity.
Defined.

Lemma log_likelihood_zero_sample_witness :
  log_likelihood lgamma_fact [Fin 0; Fin 0] (world_of half_half) =
  (Returned (Fin 0), world_of half_half).
Proof.
  apply (log_likelihood_zero_sample lgamma_fact unit (world_of half_half)
           [Fin 1; Fin 1]).
  - exact (lgamma_fact_small 1 ltac:(lia)).
  - exact init_half_half.
Defined.

Lemma log_likelihood_one_hot_witness :
  log_likelihood lgamma_fact [Fin 1; Fin 0] (world_of half_half) =
  (Returned (Fin (ln (1 / 2))), world_of half_half).
Proof.
  apply (log_likelihood_one_hot lgamma_fact unit (world_of half_half)
           [Fin 1; Fin 1] 0 (ln (1 / 2))).
  - exact (lgamma_fact_small 1 ltac:(lia)).
  - exact (lgamma_fact_small 2 ltac:(lia)).
  - exact init_half_half.
  - reflexivity.
  - pose proof ln_half_bounds. pose proof thousand_below_OVF.
    split_Rabs; lra.
Defined.

Lemma variate_then_log_likelihood_witness :
  exists s w' x,
    variate first_category_sampler 5 (world_of half_half) = (Returned s, w') /\
    log_likelihood lgamma_fact s w' = (Returned x, w') /\
    (x = NInf \/ is_finite x).
Proof.
  destruct unit_pair_valid as [Hf [Hp Hl]].
  apply (variate_then_log_likelihood lgamma_fact unit first_category_sampler
           (world_of half_half) [1; 1] 5); try assumption.
  - exact first_category_contract.
  - exact lgamma_fact_on_counts.
  - exact init_half_half.
  - lia.
  - reflexivity.
Defined.

Lemma single_category_likelihood_witness :
  log_likelihood lgamma_fact [Fin 4]
    (world_of {| _beta := [Fin 1]; _log_beta := [Fin 0] |}) =
  (Returned (Fin 0), world_of {| _beta := [Fin 1]; _log_beta := [Fin 0] |}).
Proof.
  pose proof thousand_below_OVF as HU.
  apply (single_category_likelihood lgamma_fact unit
           (world_of {| _beta := [Fin 1]; _log_beta := [Fin 0] |}) 3 4).
  - lra.
  - lra.
  - apply init_single; lra.
  - lia.
  - reflexivity.
  - replace (IZR 4 + 1) with (IZR 5) by lra.
    pose proof (lgamma_fact_bound 5 ltac:(lia)) as H5. simpl in H5. lra.
Defined.

Lemma single_draw_likelihood_witness :
  exists i s w',
    (i < 2)%nat /\
    variate1 first_category_sampler (world_of half_half) = (Returned s, w') /\
    s = map (fun k => Fin (IZR k)) (one_hot 2 i) /\
    forall b, nth_error (_log_beta half_half) i = Some (Fin b) ->
              Rabs b < OVF ->
              log_likelihood lgamma_fact s w' = (Returned (Fin b), w').
Proof.
  destruct unit_pair_valid as [Hf [Hp Hl]].
  apply (single_draw_likelihood lgamma_fact unit first_category_sampler
           (world_of half_half) [1; 1]); try assumption.
  - exact first_category_contract.
  - exact (lgamma_fact_small 1 ltac:(lia)).
  - exact (lgamma_fact_small 2 ltac:(lia)).
  - exact init_half_half.
Defined.

(** ** Out-of-range counts and the all-zero raw vector *)

Lemma to_ulong_nonneg (x : double) (n : Z) : to_ulong x = Some n -> (0 <= n)%Z.
Proof.
  destruct x as [| | |r]; simpl; try discriminate.
  destruct (Rle_dec 0 r).
  - destruct (Rlt_dec r (IZR ULONG_MODULUS)); [|discriminate].
    intros H. injection H as <-. now apply Int_part_nonneg.
  - destruct (Rlt_dec (-1) r); [|discriminate].
    intros H. injection H as <-. lia.
Qed.

Lemma to_ulong_too_large (n : Z) (r : R) :
  (0 <= n)%Z -> IZR ULONG_MODULUS <= r ->
  to_ulong (add (of_ulong n) (Fin r)) = None.
Proof.
  intros Hn Hr. assert (H0 : 0 <= IZR n) by now apply IZR_le.
  pose proof ULONG_MODULUS_pos as HU.
  unfold of_ulong. simpl. unfold fl.
  destruct (Rle_dec OVF (IZR n + r)); [reflexivity|].
  destruct (Rle_dec (IZR n + r) (- OVF)); [reflexivity|]. simpl.
  destruct (Rle_dec 0 (IZR n + r)); [|lra].
  destruct (Rlt_dec (IZR n + r) (IZR ULONG_MODULUS)); [lra|reflexivity].
Qed.

Lemma loop_too_large
  (lgamma : R -> R) (RandomState : Type) (sample : Sample) (d : nat) :
  forall (n : Z) (l : double) (w : world RandomState) (i : nat) (r : R),
    (0 <= n)%Z -> (i < d)%nat -> nth_error sample i = Some (Fin r) ->
    IZR ULONG_MODULUS <= r ->
    log_likelihood_loop lgamma sample d n l w = (Undefined, w).
Proof.
  induction d as [|d IH]; intros n l w i r Hn Hi Hx Hr; [lia|].
  cbn [log_likelihood_loop].
  unfold bind at 1, at_index at 1.
  destruct (nth_error sample d) as [s|] eqn:Hs; [|reflexivity].
  unfold bind at 1, converted at 1.
  destruct (Nat.eq_dec i d) as [->|Hne].
  - rewrite Hx in Hs. injection Hs as <-.
    now rewrite to_ulong_too_large.
  - destruct (to_ulong (add (of_ulong n) s)) as [n'|] eqn:Hn';
      [|reflexivity].
    apply to_ulong_nonneg in Hn'.
    unfold bind at 1, member at 1. unfold bind at 1, at_index at 1.
    destruct (nth_error (_log_beta (self w)) d) as [lb|]; [|reflexivity].
    apply (IH _ _ _ i r); [assumption|lia|assumption|assumption].
Qed.

(** X13.  A sample of the right length with an entry of 2^64 or more has
    no defined result, whatever the other entries: the running trial count
    no longer fits the unsigned long it is converted to.  No value is
    returned, no error is signalled, and the world is unchanged. *)
Theorem log_likelihood_count_too_large
  (lgamma : R -> R) (RandomState : Type) (w : world RandomState)
  (sample : Sample) (i : nat) (r : R) :
  length sample = length (_beta (self w)) ->
  nth_error sample i = Some (Fin r) -> IZR ULONG_MODULUS <= r ->
  log_likelihood lgamma sample w = (Undefined, w).
Proof.
  intros Hlen Hx Hr. unfold log_likelihood.
  unfold bind at 1, member at 1. unfold bind at 1, UTEXAS_ASSERT at 1.
  rewrite Hlen, Nat.eqb_refl. unfold bind at 1.
  rewrite (loop_too_large lgamma RandomState sample _ _ _ _ i r);
    try assumption; [reflexivity|lia|].
  rewrite <- Hlen. apply nth_error_Some. now rewrite Hx.
Qed.

Lemma Rsum_zeros (n : nat) : Rsum (repeat 0 n) = 0.
Proof. induction n as [|n IH]; simpl; [reflexivity|rewrite IH; lra]. Qed.

(** X14.  An all-zero raw vector of any length D is accepted without
    error and yields a distribution whose beta is all NaN (0/0) and whose
    log_beta is all 0. *)
Theorem construction_all_zero (D : nat) :
  Multinomial_init (repeat (Fin 0) D) =
  Returned {| _beta := repeat NaN D; _log_beta := repeat (Fin 0) D |}.
Proof.
  unfold Multinomial_init.
  assert (Hsum : Numpy.sum (repeat (Fin 0) D) = Fin 0).
  { rewrite <- (map_repeat 0 D Fin). rewrite numpy_sum_nonneg.
    - now rewrite Rsum_zeros.
    - apply Forall_forall. intros x Hx. apply repeat_spec in Hx. lra.
    - rewrite Rsum_zeros. apply OVF_pos. }
  rewrite Hsum.
  assert (Hdiv : Numpy.divide (repeat (Fin 0) D) (Fin 0) = repeat NaN D).
  { unfold Numpy.divide. rewrite map_repeat. now rewrite div_zero_zero. }
  rewrite Hdiv. unfold Numpy.nan_to_num, Numpy.log.
  now rewrite !map_repeat.
Qed.

Lemma log_likelihood_count_too_large_witness :
  log_likelihood lgamma_fact [Fin 1; Fin (IZR ULONG_MODULUS)]
    (world_of half_half) =
  (Undefined, world_of half_half).
Proof.
  apply (log_likelihood_count_too_large lgamma_fact unit (world_of half_half)
           [Fin 1; Fin (IZR ULONG_MODULUS)] 1 (IZR ULONG_MODULUS));
    reflexivity.
Defined.
